(** * Name database of a decompiled binary (bin2llvmir/providers/names.cpp)

    A shallow embedding of [Name], [Names], [NameContainer] and
    [NamesProvider], together with the pieces of the C++ standard library
    (formatted stream extraction, [std::getline], [std::set], [std::map])
    whose behaviour the code relies on, and the properties of the name
    registry proved over that embedding. *)

From Stdlib Require Import ZArith String Ascii List Lia Bool Sorted.
From stdpp Require Import gmap strings list pretty.

Open Scope string_scope.
Open Scope Z_scope.

(** ** Characters and strings as the C library classifies them *)

Module cxx.

(** [std::isspace] in the "C" locale: space, and the controls \t \n \v \f \r. *)
Definition isspace (c : ascii) : bool :=
  let n := N_of_ascii c in
  ((n =? 32) || ((9 <=? n) && (n <=? 13)))%N.

Definition isdigit (c : ascii) : bool :=
  let n := N_of_ascii c in ((48 <=? n) && (n <=? 57))%N.

(** [::tolower] in the "C" locale: only 'A'..'Z' change. *)
Definition tolower (c : ascii) : ascii :=
  let n := N_of_ascii c in
  if ((65 <=? n) && (n <=? 90))%N then ascii_of_N (n + 32) else c.

Fixpoint transform_tolower (s : string) : string :=
  match s with
  | EmptyString => EmptyString
  | String c r => String (tolower c) (transform_tolower r)
  end.

Definition empty (s : string) : bool :=
  match s with EmptyString => true | String _ _ => false end.

Definition newline : ascii := "010"%char.

(** *** Input streams

    An input stream ([std::ifstream], [std::stringstream]) is the text still
    to be read and the two state bits the code looks at. *)

Record istream : Type := mk_istream
  { rdbuf : string; failbit : bool; eofbit : bool }.

Definition stream_of (content : string) : istream :=
  {| rdbuf := content; failbit := false; eofbit := false |}.

Definition good (s : istream) : bool := negb (failbit s) && negb (eofbit s).
Definition eof (s : istream) : bool := eofbit s.
Definition fail (s : istream) : bool := failbit s.

Fixpoint skipws (s : string) : string :=
  match s with
  | EmptyString => EmptyString
  | String c r => if isspace c then skipws r else s
  end.

(** [istream::sentry]: a stream that is not good gets [failbit]; otherwise
    white space is skipped (unless [noskipws]) and running into the end of the
    text while skipping sets [failbit | eofbit]. *)
Definition sentry (noskipws : bool) (s : istream) : istream * bool :=
  if negb (good s) then
    ({| rdbuf := rdbuf s; failbit := true; eofbit := eofbit s |}, false)
  else if noskipws then (s, true)
  else
    match skipws (rdbuf s) with
    | EmptyString =>
        ({| rdbuf := EmptyString; failbit := true; eofbit := true |}, false)
    | rest => ({| rdbuf := rest; failbit := false; eofbit := false |}, true)
    end.

(** The characters up to the delimiter, and what follows the delimiter
    ([None] when the text ends before a delimiter is met). *)
Fixpoint until_newline (s : string) : string * option string :=
  match s with
  | EmptyString => (EmptyString, None)
  | String c r =>
      if Ascii.eqb c newline then (EmptyString, Some r)
      else let '(l, after) := until_newline r in (String c l, after)
  end.

(** [std::getline(is, str)]: the delimiter is extracted and dropped; reaching
    the end of the text sets [eofbit], and [failbit] too when nothing at all was
    extracted. *)
Definition getline (s : istream) (str : string) : istream * string :=
  match sentry true s with
  | (s', false) => (s', str)
  | (s', true) =>
      match until_newline (rdbuf s') with
      | (l, Some rest) =>
          ({| rdbuf := rest; failbit := false; eofbit := false |}, l)
      | (l, None) =>
          ({| rdbuf := EmptyString; failbit := empty l; eofbit := true |}, l)
      end
  end.

Definition INT_MIN : Z := - 2 ^ 31.
Definition INT_MAX : Z := 2 ^ 31 - 1.
Definition LONG_MIN : Z := - 2 ^ 63.
Definition LONG_MAX : Z := 2 ^ 63 - 1.

Fixpoint span_digits (s : string) : string * string :=
  match s with
  | EmptyString => (EmptyString, EmptyString)
  | String c r =>
      if isdigit c then let '(ds, rest) := span_digits r in (String c ds, rest)
      else (EmptyString, s)
  end.

Fixpoint decimal (acc : Z) (ds : string) : Z :=
  match ds with
  | EmptyString => acc
  | String c r => decimal (10 * acc + (Z.of_N (N_of_ascii c) - 48)) r
  end.

(** [num_get::get] for [long] with the stream's default [dec] base: an
    optional sign and decimal digits are accumulated; with no digit the
    conversion fails and, as C++11 prescribes, the value 0 is stored; a value
    out of range is stored as the nearest bound.  Result: value, failure,
    remaining text. *)
Definition num_get_long (s : string) : Z * bool * string :=
  let '(negative, s1) :=
    match s with
    | String c r =>
        if Ascii.eqb c "-"%char then (true, r)
        else if Ascii.eqb c "+"%char then (false, r)
        else (false, s)
    | EmptyString => (false, s)
    end in
  let '(ds, rest) := span_digits s1 in
  if empty ds then (0, true, rest)
  else
    let v := if negative : bool then - decimal 0 ds else decimal 0 ds in
    if v <? LONG_MIN then (LONG_MIN, true, rest)
    else if LONG_MAX <? v then (LONG_MAX, true, rest)
    else (v, false, rest).

(** [istream::operator>>(int&)]: when the sentry refuses, [val] is left as it
    was; otherwise [val] is always assigned, from the [long] that [num_get]
    produced, clamped to the range of [int]. *)
Definition extract_int (s : istream) (val : Z) : istream * Z :=
  match sentry false s with
  | (s', false) => (s', val)
  | (s', true) =>
      let '(lval, err, rest) := num_get_long (rdbuf s') in
      let '(n, err') :=
        if lval <? INT_MIN then (INT_MIN, true)
        else if INT_MAX <? lval then (INT_MAX, true)
        else (lval, err) in
      ({| rdbuf := rest; failbit := err'; eofbit := empty rest |}, n)
  end.

Fixpoint span_nonspace (s : string) : string * string :=
  match s with
  | EmptyString => (EmptyString, EmptyString)
  | String c r =>
      if isspace c then (EmptyString, s)
      else let '(tok, rest) := span_nonspace r in (String c tok, rest)
  end.

(** [operator>>(istream&, std::string&)]: when the sentry refuses, [str] is
    left as it was; otherwise it receives the characters up to the next white
    space. *)
Definition extract_string (s : istream) (str : string) : istream * string :=
  match sentry false s with
  | (s', false) => (s', str)
  | (s', true) =>
      let '(tok, rest) := span_nonspace (rdbuf s') in
      ({| rdbuf := rest; failbit := empty tok; eofbit := empty rest |}, tok)
  end.

(** Conversion of an [unsigned long long] argument to an [int] parameter. *)
Definition to_int (n : Z) : Z := (n + 2 ^ 31) mod 2 ^ 32 - 2 ^ 31.

(** [std::to_string] of an unsigned value: its decimal digits. *)
Definition to_string (n : N) : string := pretty n.

End cxx.

(** ** Addresses *)

(** Modelled from the spec: [retdec::utils::Address] is declared in a header
    that is not part of this file; it is an unsigned 64-bit value, one of
    which is the distinguished "undefined" address.  Which value that is
    plays no role below; the largest one is taken. *)
Module Address.
Definition Undefined : N := (2 ^ 64 - 1)%N.
Definition isUndefined (a : N) : bool := (a =? Undefined)%N.
End Address.

(** ** Name *)

(** Modelled from the spec: the enumeration [Name::eType] is declared in
    names.h (not part of this file); its members are listed in the order the
    spec gives, and [eType_value] is each member's position, which is what
    [operator<] on the enumeration compares. *)
Inductive eType : Type :=
  | INVALID
  | CONFIG_ENTRY_POINT
  | CONFIG_FUNCTION
  | CONFIG_GLOBAL
  | CONFIG_SEGMENT
  | DEBUG_FUNCTION
  | DEBUG_GLOBAL
  | IMPORT_GENERATED
  | IMPORT
  | EXPORT
  | SYMBOL_FUNCTION
  | SYMBOL_OBJECT
  | SYMBOL_FILE
  | SYMBOL_OTHER
  | ENTRY_POINT.

Definition eType_value (t : eType) : Z :=
  match t with
  | INVALID => 0
  | CONFIG_ENTRY_POINT => 1
  | CONFIG_FUNCTION => 2
  | CONFIG_GLOBAL => 3
  | CONFIG_SEGMENT => 4
  | DEBUG_FUNCTION => 5
  | DEBUG_GLOBAL => 6
  | IMPORT_GENERATED => 7
  | IMPORT => 8
  | EXPORT => 9
  | SYMBOL_FUNCTION => 10
  | SYMBOL_OBJECT => 11
  | SYMBOL_FILE => 12
  | SYMBOL_OTHER => 13
  | ENTRY_POINT => 14
  end.

Record Name : Type := mk_Name { _name : string; _type : eType }.

(** [Name::Name()]: the invalid sentinel. *)
Definition Name_default : Name := {| _name := ""; _type := INVALID |}.

(** [Name::operator bool]. *)
Definition Name_valid (n : Name) : bool :=
  negb (eType_value (_type n) =? eType_value INVALID).

(** [Name::operator<]: by type, and by text between names of one type. *)
Definition Name_lt (a o : Name) : bool :=
  if eType_value (_type a) =? eType_value (_type o)
  then String.ltb (_name a) (_name o)
  else eType_value (_type a) <? eType_value (_type o).

(** ** Names: the [std::set<Name>] of one address

    The set is kept as the list of its elements in ascending [Name_lt]
    order, which is the order [begin()]..[end()] walks. *)

Record Names : Type := mk_Names { _names : list Name }.

(** A default-constructed [Names]. *)
Definition Names_default : Names := {| _names := [] |}.

(** [std::set::emplace]: the element goes to its place in the order unless an
    equivalent one (neither smaller than the other) is there already; the
    boolean tells whether it was inserted. *)
Fixpoint set_emplace (x : Name) (s : list Name) : list Name * bool :=
  match s with
  | [] => ([x], true)
  | y :: r =>
      if Name_lt x y then (x :: s, true)
      else if Name_lt y x then
        let '(r', inserted) := set_emplace x r in (y :: r', inserted)
      else (s, false)
  end.

Definition Names_size (ns : Names) : nat := length (_names ns).
Definition Names_empty (ns : Names) : bool :=
  match _names ns with [] => true | _ :: _ => false end.

(** [Names::getPreferredName]: [*_names.begin()], or the static empty name. *)
Definition getPreferredName (ns : Names) : Name :=
  match _names ns with
  | [] => Name_default
  | n :: _ => n
  end.

(** ** The collaborators the registry reads *)

(** Modelled from the spec: the configuration (its classes are not part of
    this file) gives an entry point, (address, name) declarations of
    functions, globals and segments, and the directory of the ordinal files. *)
Record Config : Type := mk_Config
  { getEntryPoint : N;
    functions : list (N * string);
    globals : list (N * string);
    segments : list (N * string);
    getOrdinalNumbersDirectory : string }.

(** Modelled from the spec: debug information gives (address, name) for
    functions, and for globals a name with the memory address of its storage,
    if the storage is memory. *)
Record DebugFormat : Type := mk_DebugFormat
  { debug_functions : list (N * string);
    debug_globals : list (option N * string) }.

(** Modelled from the spec: an import has an address, a name (possibly
    empty), the index of its library and possibly an ordinal number. *)
Record Import : Type := mk_Import
  { imp_getAddress : N;
    imp_getName : string;
    getLibraryIndex : nat;
    getOrdinalNumber : option N }.

Record ImportTable : Type := mk_ImportTable
  { libraries : list string; imports : list Import }.

(** The name of the library of an index (empty when there is none). *)
Definition getLibrary (t : ImportTable) (i : nat) : string :=
  nth i (libraries t) "".

Inductive UsageType : Type :=
  | Usage_FUNCTION | Usage_OBJECT | Usage_FILE | Usage_UNKNOWN.

Record Symbol : Type := mk_Symbol
  { getRealAddress : option N;
    sym_getName : string;
    getUsageType : UsageType }.

(** Modelled from the spec: the loaded image with the tables of its file
    format, each of which may be missing. *)
Record FileImage : Type := mk_FileImage
  { getImportTable : option ImportTable;
    getExportTable : option (list (N * string));
    getSymbolTables : list (list Symbol);
    getEpAddress : option N;
    getSegments : list (N * string) }.

(** Modelled from the spec: [names::entryPointName], the fixed synthetic name
    of an entry point (a constant of names.h). *)
Definition entryPointName : string := "entry_point".

(** Modelled from the spec: [retdec::utils::removeSuffix] (not part of this
    file) strips the suffix when the string ends with it. *)
Fixpoint removeSuffix (n suffix : string) : string :=
  if String.eqb n suffix then EmptyString
  else match n with
       | EmptyString => EmptyString
       | String c r => String c (removeSuffix r suffix)
       end.

(** ** The files the registry may open

    [files] maps the path of each readable file to its text; [opened] records,
    oldest first, every path an [std::ifstream] was asked to open. *)
Record World : Type := mk_World
  { files : gmap string string; opened : list string }.

(** [std::ifstream::open]: a missing file leaves the stream failed. *)
Definition ifstream_open (path : string) (w : World) : cxx.istream * World :=
  let w' := {| files := files w; opened := opened w ++ [path] |} in
  match files w !! path with
  | Some content => (cxx.stream_of content, w')
  | None => ({| cxx.rdbuf := ""; cxx.failbit := true; cxx.eofbit := false |}, w')
  end.

(** [std::map::emplace]: nothing changes when the key is present. *)
Definition map_emplace `{Countable K} {V} (k : K) (v : V) (m : gmap K V) : gmap K V :=
  match m !! k with
  | Some _ => m
  | None => <[k := v]> m
  end.

(** ** The ordinal files *)

(** [ImportOrdMap]: ordinal number to function name. *)
Abbreviation ImportOrdMap := (gmap Z string).

(** The body of the read loop of [loadImportOrds] for one line. *)
Definition read_ord_line (line : string) (ordMap : ImportOrdMap) : ImportOrdMap :=
  let ordDecl := cxx.stream_of line in
  let ord := (-1) in
  let funcName := "" in
  let '(ordDecl, ord) := cxx.extract_int ordDecl ord in
  let '(ordDecl, funcName) := cxx.extract_string ordDecl funcName in
  if 0 <=? ord then <[ord := funcName]> ordMap else ordMap.

(** [while (!getline(inputFile, line).eof()) { ... }].  Every turn of the loop
    takes at least one character off the stream, so the length of the text
    bounds the number of turns; [fuel] is that bound. *)
Fixpoint read_ords (fuel : nat) (inputFile : cxx.istream) (line : string)
    (ordMap : ImportOrdMap) : ImportOrdMap :=
  match fuel with
  | O => ordMap
  | S fuel' =>
      let '(inputFile', line') := cxx.getline inputFile line in
      if cxx.eof inputFile' then ordMap
      else read_ords fuel' inputFile' line' (read_ord_line line' ordMap)
  end.

(** The map [loadImportOrds] builds from an opened file. *)
Definition read_ord_file (inputFile : cxx.istream) : ImportOrdMap :=
  read_ords (S (String.length (cxx.rdbuf inputFile))) inputFile "" ∅.

(** ** NameContainer *)

Record NameContainer : Type := mk_NameContainer
  { _module : N;
    _config : Config;
    _debug : option DebugFormat;
    _image : FileImage;
    _demangler : N;
    _data : gmap N Names;
    _dllOrds : gmap string ImportOrdMap }.

Definition with_data (d : gmap N Names) (nc : NameContainer) : NameContainer :=
  {| _module := _module nc; _config := _config nc; _debug := _debug nc;
     _image := _image nc; _demangler := _demangler nc;
     _data := d; _dllOrds := _dllOrds nc |}.

Definition with_dllOrds (o : gmap string ImportOrdMap) (nc : NameContainer)
    : NameContainer :=
  {| _module := _module nc; _config := _config nc; _debug := _debug nc;
     _image := _image nc; _demangler := _demangler nc;
     _data := _data nc; _dllOrds := o |}.

(** [_data[a]]: the collection at [a], default-constructed when absent. *)
Definition data_at (a : N) (nc : NameContainer) : Names :=
  default Names_default (_data nc !! a).

(** [NameContainer::loadImportOrds]. *)
Definition loadImportOrds (libName : string) (nc : NameContainer) (w : World)
    : bool * NameContainer * World :=
  let dir := getOrdinalNumbersDirectory (_config nc) in
  let filePath := dir +:+ "/" +:+ libName +:+ ".ord" in
  let '(inputFile, w') := ifstream_open filePath w in
  if cxx.fail inputFile then (false, nc, w')
  else
    let ordMap := read_ord_file inputFile in
    (true, with_dllOrds (map_emplace libName ordMap (_dllOrds nc)) nc, w').

(** [NameContainer::getNameFromImportLibAndOrd].  [ord] is the value of the
    [int] parameter, so it lies between [cxx.INT_MIN] and [cxx.INT_MAX]: a
    caller with a wider argument converts it first (see [initFromImport],
    which applies [cxx.to_int]).  After a successful load the second [find]
    cannot miss (see [loadImportOrds_cached]); that branch stands for
    dereferencing [end()]. *)
Definition getNameFromImportLibAndOrd (libName : string) (ord : Z)
    (nc : NameContainer) (w : World) : string * NameContainer * World :=
  let lookup_ord (ords : ImportOrdMap) := default "" (ords !! ord) in
  match _dllOrds nc !! libName with
  | Some ords => (lookup_ord ords, nc, w)
  | None =>
      let '(ok, nc', w') := loadImportOrds libName nc w in
      if negb ok then ("", nc', w')
      else
        match _dllOrds nc' !! libName with
        | Some ords => (lookup_ord ords, nc', w')
        | None => ("", nc', w')
        end
  end.

Section Registry.

(** [retdec::utils::normalizeNamePrefix] and [names::generatedImportPrefix]
    are defined outside this file; the registry is modelled for any such
    function and any such prefix. *)
Variable normalizeNamePrefix : string -> string.
Variable generatedImportPrefix : string.

(** [Name::Name(name, type)]. *)
Definition Name_new (name : string) (type : eType) : Name :=
  let n := normalizeNamePrefix name in
  {| _name := if String.eqb n "_main" then "main" else n; _type := type |}.

(** [Names::addName]. *)
Definition Names_addName (name : string) (type : eType) (ns : Names)
    : bool * Names :=
  if cxx.empty name then (false, ns)
  else (true, {| _names := fst (set_emplace (Name_new name type) (_names ns)) |}).

(** [NameContainer::addNameForAddress]. *)
Definition addNameForAddress (a : N) (name : string) (type : eType)
    (nc : NameContainer) : bool * NameContainer :=
  if Address.isUndefined a || cxx.empty name then (false, nc)
  else
    let ns := data_at a nc in
    let '(r, ns') := Names_addName name type ns in
    (r, with_data (<[a := ns']> (_data nc)) nc).

(** [NameContainer::getNamesForAddress]: the lookup creates the entry. *)
Definition getNamesForAddress (a : N) (nc : NameContainer)
    : Names * NameContainer :=
  let ns := data_at a nc in
  (ns, with_data (<[a := ns]> (_data nc)) nc).

(** [NameContainer::getPreferredNameForAddress]. *)
Definition getPreferredNameForAddress (a : N) (nc : NameContainer)
    : Name * NameContainer :=
  let ns := data_at a nc in
  (getPreferredName ns, with_data (<[a := ns]> (_data nc)) nc).

(** A loop of [addNameForAddress] calls over (address, name) pairs. *)
Definition addAll (type : eType) (l : list (N * string)) (nc : NameContainer)
    : NameContainer :=
  fold_left (fun nc p => snd (addNameForAddress (fst p) (snd p) type nc)) l nc.

(** [NameContainer::initFromConfig]. *)
Definition initFromConfig (nc : NameContainer) : NameContainer :=
  let c := _config nc in
  let nc := snd (addNameForAddress (getEntryPoint c) entryPointName
                   CONFIG_ENTRY_POINT nc) in
  let nc := addAll CONFIG_FUNCTION (functions c) nc in
  let nc := addAll CONFIG_GLOBAL (globals c) nc in
  addAll CONFIG_SEGMENT (segments c) nc.

(** [NameContainer::initFromDebug]. *)
Definition initFromDebug (nc : NameContainer) : NameContainer :=
  match _debug nc with
  | None => nc
  | Some d =>
      let nc := addAll DEBUG_FUNCTION (debug_functions d) nc in
      fold_left
        (fun nc p =>
           match fst p with
           | Some addr => snd (addNameForAddress addr (snd p) DEBUG_GLOBAL nc)
           | None => nc
           end)
        (debug_globals d) nc
  end.

(** The body of the loop of [initFromImage] over the import table. *)
Definition initFromImport (impTbl : ImportTable) (imp : Import)
    (st : NameContainer * World) : NameContainer * World :=
  let '(nc, w) := st in
  let addr := imp_getAddress imp in
  let name := imp_getName imp in
  let '(name, ord, ordOk, nc, w) :=
    if cxx.empty name then
      let libN := getLibrary impTbl (getLibraryIndex imp) in
      let libN := cxx.transform_tolower libN in
      let libN := removeSuffix libN ".dll" in
      match getOrdinalNumber imp with
      | Some ord =>
          let '(name, nc, w) :=
            getNameFromImportLibAndOrd libN (cxx.to_int (Z.of_N ord)) nc w in
          (name, ord, true, nc, w)
      | None => (name, 0%N, false, nc, w)
      end
    else (name, 0%N, false, nc, w) in
  if cxx.empty name && ordOk then
    let name := generatedImportPrefix +:+ cxx.to_string ord in
    (snd (addNameForAddress addr name IMPORT_GENERATED nc), w)
  else (snd (addNameForAddress addr name IMPORT nc), w).

Definition symbolType (u : UsageType) : eType :=
  match u with
  | Usage_FUNCTION => SYMBOL_FUNCTION
  | Usage_OBJECT => SYMBOL_OBJECT
  | Usage_FILE => SYMBOL_FILE
  | Usage_UNKNOWN => SYMBOL_OTHER
  end.

(** [NameContainer::initFromImage]. *)
Definition initFromImage (nc : NameContainer) (w : World)
    : NameContainer * World :=
  let i := _image nc in
  let '(nc, w) :=
    match getImportTable i with
    | Some impTbl =>
        fold_left (fun st imp => initFromImport impTbl imp st)
          (imports impTbl) (nc, w)
    | None => (nc, w)
    end in
  let nc :=
    match getExportTable i with
    | Some exTbl => addAll EXPORT exTbl nc
    | None => nc
    end in
  let nc :=
    fold_left
      (fun nc s =>
         match getRealAddress s with
         | Some a =>
             snd (addNameForAddress a (sym_getName s)
                    (symbolType (getUsageType s)) nc)
         | None => nc
         end)
      (concat (getSymbolTables i)) nc in
  let nc :=
    match getEpAddress i with
    | Some ep => snd (addNameForAddress ep entryPointName ENTRY_POINT nc)
    | None => nc
    end in
  (addAll ENTRY_POINT (getSegments i) nc, w).

(** [NameContainer::NameContainer]. *)
Definition NameContainer_new (m : N) (c : Config) (d : option DebugFormat)
    (i : FileImage) (dm : N) (w : World) : NameContainer * World :=
  let nc := {| _module := m; _config := c; _debug := d; _image := i;
               _demangler := dm; _data := ∅; _dllOrds := ∅ |} in
  initFromImage (initFromDebug (initFromConfig nc)) w.

(** ** NamesProvider

    [_module2names] is keyed by the module's handle.  A [NameContainer*] into
    the table is the key of the slot it points to ([None] is [nullptr]): the
    nodes of an [std::map] never move. *)
Definition addNames (m : option N) (c : option Config) (d : option DebugFormat)
    (i : option FileImage) (dm : option N)
    (_module2names : gmap N NameContainer) (w : World)
    : option N * gmap N NameContainer * World :=
  match m, c, i, dm with
  | Some m, Some c, Some i, Some dm =>
      let '(nc, w') := NameContainer_new m c d i dm w in
      (Some m, map_emplace m nc _module2names, w')
  | _, _, _, _ => (None, _module2names, w)
  end.

(** [NamesProvider::getNames]. *)
Definition getNames (m : option N) (_module2names : gmap N NameContainer)
    : option N :=
  match m with
  | Some m => if decide (is_Some (_module2names !! m)) then Some m else None
  | None => None
  end.

(** The registry a pointer into the table points to. *)
Definition deref (p : option N) (_module2names : gmap N NameContainer)
    : option NameContainer :=
  p ≫= fun m => _module2names !! m.

End Registry.

(** ** Vocabulary of the statements *)

(** The invariant of an [std::set]: strictly ascending, so without
    equivalent elements. *)
Definition Names_ok (ns : Names) : Prop :=
  StronglySorted (fun a b => Name_lt a b = true) (_names ns).

(** Every collection of the registry is a well-formed set. *)
Definition data_ok (nc : NameContainer) : Prop :=
  forall a ns, _data nc !! a = Some ns -> Names_ok ns.

(** The text of a file whose lines are [ls], each closed by a newline. *)
Fixpoint terminated (ls : list string) : string :=
  match ls with
  | [] => EmptyString
  | l :: r => l +:+ String cxx.newline (terminated r)
  end.

(** Whether a newline occurs in the text. *)
Fixpoint has_newline (s : string) : bool :=
  match s with
  | EmptyString => false
  | String c r => Ascii.eqb c cxx.newline || has_newline r
  end.


(** The file [loadImportOrds] opens for a library. *)
Definition ordPath (nc : NameContainer) (libName : string) : string :=
  getOrdinalNumbersDirectory (_config nc) +:+ "/" +:+ libName +:+ ".ord".

(** *** Sample inputs

    A normalisation rule that rewrites nothing; it stands for
    [normalizeNamePrefix] where a statement is evaluated on concrete names
    that carry no prefix. *)
Definition verbatimPrefix (s : string) : string := s.

Definition sample_config : Config :=
  {| getEntryPoint := Address.Undefined;
     functions := [(4096%N, "init")];
     globals := [];
     segments := [];
     getOrdinalNumbersDirectory := "ords" |}.

Definition other_config : Config :=
  {| getEntryPoint := Address.Undefined;
     functions := [(4096%N, "start")];
     globals := [];
     segments := [];
     getOrdinalNumbersDirectory := "ords" |}.

Definition sample_image : FileImage :=
  {| getImportTable := None;
     getExportTable := None;
     getSymbolTables := [];
     getEpAddress := None;
     getSegments := [] |}.

(** A registry with no name and nothing cached. *)
Definition sample_registry : NameContainer :=
  {| _module := 1%N; _config := sample_config; _debug := None;
     _image := sample_image; _demangler := 1%N; _data := ∅; _dllOrds := ∅ |}.

(** One ordinal file, for the library "foo". *)
Definition sample_world : World :=
  {| files := {[ "ords/foo.ord" := terminated ["7 CreateWidget"] ]};
     opened := [] |}.

(** A named import and two imports known by ordinal only, all of the
    library "FOO.DLL". *)
Definition imp_printf : Import :=
  {| imp_getAddress := 8192%N; imp_getName := "printf";
     getLibraryIndex := 0; getOrdinalNumber := None |}.

Definition imp_ord7 : Import :=
  {| imp_getAddress := 8200%N; imp_getName := "";
     getLibraryIndex := 0; getOrdinalNumber := Some 7%N |}.

Definition imp_ord9 : Import :=
  {| imp_getAddress := 8208%N; imp_getName := "";
     getLibraryIndex := 0; getOrdinalNumber := Some 9%N |}.

Definition sample_imports : ImportTable :=
  {| libraries := ["FOO.DLL"]; imports := [imp_printf; imp_ord7; imp_ord9] |}.

Definition sym_init : Symbol :=
  {| getRealAddress := Some 4096%N; sym_getName := "sym_init";
     getUsageType := Usage_FUNCTION |}.

(** An image with one table of each kind. *)
Definition full_image : FileImage :=
  {| getImportTable := Some sample_imports;
     getExportTable := Some [(12288%N, "exported")];
     getSymbolTables := [[sym_init]];
     getEpAddress := Some 4096%N;
     getSegments := [(16384%N, ".text")] |}.

Definition sample_debug : DebugFormat :=
  {| debug_functions := [(4096%N, "dbg_init")];
     debug_globals := [(Some 20480%N, "g_counter"); (None, "in_register")] |}.

(** Three names of one address whose texts are in the opposite order of
    their types: the configuration name has the largest text. *)
Definition ranked_names : Names :=
  {| _names := [ {| _name := "zeta"; _type := CONFIG_FUNCTION |};
                 {| _name := "alpha"; _type := SYMBOL_OTHER |};
                 {| _name := "beta"; _type := SYMBOL_OTHER |} ] |}.

(** A debug name and a symbol name of one address. *)
Definition sample_names : Names :=
  {| _names := [ {| _name := "dbg_main"; _type := DEBUG_FUNCTION |};
                 {| _name := "sym_main"; _type := SYMBOL_FUNCTION |} ] |}.

(** *** The stages of [initFromImage] *)

Section Stages.

Variable norm : string -> string.
Variable prefix : string.

(** The registry and the files after each stage of [initFromImage]. *)
Definition afterImports (nc : NameContainer) (w : World) : NameContainer * World :=
  match getImportTable (_image nc) with
  | Some impTbl =>
      fold_left (fun st imp => initFromImport norm prefix impTbl imp st)
        (imports impTbl) (nc, w)
  | None => (nc, w)
  end.

Definition afterExports (i : FileImage) (nc : NameContainer) : NameContainer :=
  match getExportTable i with
  | Some exTbl => addAll norm EXPORT exTbl nc
  | None => nc
  end.

Definition afterSymbols (i : FileImage) (nc : NameContainer) : NameContainer :=
  fold_left
    (fun nc s =>
       match getRealAddress s with
       | Some a =>
           snd (addNameForAddress norm a (sym_getName s)
                  (symbolType (getUsageType s)) nc)
       | None => nc
       end)
    (concat (getSymbolTables i)) nc.

Definition afterEntryPoint (i : FileImage) (nc : NameContainer) : NameContainer :=
  match getEpAddress i with
  | Some ep => snd (addNameForAddress norm ep entryPointName ENTRY_POINT nc)
  | None => nc
  end.

End Stages.

(** *** The rest of the provider *)

(** [NamesProvider::getNames(m, names)]: the pointer, through the reference
    parameter, and whether it is not null. *)
Definition getNames_out (m : option N) (_module2names : gmap N NameContainer)
    : bool * option N :=
  let names := getNames m _module2names in
  (match names with Some _ => true | None => false end, names).

(** [NamesProvider::clear]. *)
Definition NamesProvider_clear (_module2names : gmap N NameContainer)
    : gmap N NameContainer := ∅.

(** *** Relations between two states of a registry *)

(** Every name of the first registry is, at the same address, a name of the
    second. *)
Definition names_le (nc nc' : NameContainer) : Prop :=
  forall a n, In n (_names (data_at a nc)) -> In n (_names (data_at a nc')).

(** The two registries were built for the same module from the same
    collaborators. *)
Definition same_env (nc nc' : NameContainer) : Prop :=
  _module nc' = _module nc /\ _config nc' = _config nc
  /\ _debug nc' = _debug nc /\ _image nc' = _image nc
  /\ _demangler nc' = _demangler nc.

(** Every cached ordinal map of the first registry is cached, unchanged, in
    the second. *)
Definition cache_le (nc nc' : NameContainer) : Prop :=
  forall L m, _dllOrds nc !! L = Some m -> _dllOrds nc' !! L = Some m.

(** The second registry extends the first: same collaborators, no name and
    no cached map lost. *)
Definition extends (nc nc' : NameContainer) : Prop :=
  names_le nc nc' /\ same_env nc nc' /\ cache_le nc nc'.

(** No stored name has the type [INVALID]. *)
Definition types_valid (nc : NameContainer) : Prop :=
  forall a n, In n (_names (data_at a nc)) -> Name_valid n = true.

(** The ordinals of a map are values an [int] can hold, and not negative. *)
Definition keys_in_int (m : ImportOrdMap) : Prop :=
  forall k v, m !! k = Some v -> 0 <= k <= cxx.INT_MAX.

(** Every cached ordinal map holds ordinals an [int] can hold only. *)
Definition cache_keys (nc : NameContainer) : Prop :=
  forall L m, _dllOrds nc !! L = Some m -> keys_in_int m.

(** The two registries have the same ordinal cache. *)
Definition same_cache (nc nc' : NameContainer) : Prop :=
  _dllOrds nc' = _dllOrds nc.

(** The name the ordinal file of a library gives an ordinal: the empty
    string when there is no such file or the file's map has no entry. *)
Definition ordinal_name (dir : string) (w : World) (libName : string) (o : Z)
    : string :=
  match files w !! (dir +:+ "/" +:+ libName +:+ ".ord") with
  | Some content => default "" (read_ord_file (cxx.stream_of content) !! o)
  | None => ""
  end.

(** Every cached map is the one read from the ordinal file of its library,
    as the files are (and were in the state [w0]). *)
Definition cache_sound (dir : string) (w0 : World) (nc : NameContainer)
    (w : World) : Prop :=
  getOrdinalNumbersDirectory (_config nc) = dir
  /\ files w = files w0
  /\ forall L m, _dllOrds nc !! L = Some m ->
       exists content,
         files w0 !! (dir +:+ "/" +:+ L +:+ ".ord") = Some content
         /\ m = read_ord_file (cxx.stream_of content).

(** Since the files were in the state [w0], no ordinal file of the directory
    [dir] that exists was opened more than once, and each one that was opened
    is in the cache. *)
Definition loads_once (dir : string) (w0 : World) (nc : NameContainer)
    (w : World) : Prop :=
  getOrdinalNumbersDirectory (_config nc) = dir
  /\ files w = files w0
  /\ forall L,
       let path := dir +:+ "/" +:+ L +:+ ".ord" in
       is_Some (files w0 !! path) ->
       (count_occ string_dec (opened w) path
        <= count_occ string_dec (opened w0) path + 1)%nat
       /\ ((count_occ string_dec (opened w0) path
            < count_occ string_dec (opened w) path)%nat ->
           is_Some (_dllOrds nc !! L)).

Fixpoint all_digits (s : string) : bool :=
  match s with
  | EmptyString => true
  | String c r => cxx.isdigit c && all_digits r
  end.

Fixpoint no_space (s : string) : bool :=
  match s with
  | EmptyString => true
  | String c r => negb (cxx.isspace c) && no_space r
  end.

(** * Properties *)

(** ** The order on names is a strict total order *)

Lemma ascii_compare_refl (c : ascii) : Ascii.compare c c = Eq.
Proof. unfold Ascii.compare. apply N.compare_refl. Qed.

Lemma ascii_compare_eq (a b : ascii) : Ascii.compare a b = Eq -> a = b.
Proof.
  unfold Ascii.compare. intros H%N.compare_eq_iff.
  rewrite <- (ascii_N_embedding a), <- (ascii_N_embedding b). now rewrite H.
Qed.

Lemma ascii_compare_lt_trans (a b c : ascii) :
  Ascii.compare a b = Lt -> Ascii.compare b c = Lt -> Ascii.compare a c = Lt.
Proof.
  unfold Ascii.compare. rewrite !N.compare_lt_iff. lia.
Qed.

Lemma string_compare_refl (s : string) : String.compare s s = Eq.
Proof.
  induction s as [|c s IH]; simpl; [reflexivity|].
  now rewrite ascii_compare_refl.
Qed.

Lemma string_compare_lt_trans (a b c : string) :
  String.compare a b = Lt -> String.compare b c = Lt -> String.compare a c = Lt.
Proof.
  revert b c. induction a as [|x a IH]; intros [|y b] [|z c]; simpl;
    try discriminate; try reflexivity.
  destruct (Ascii.compare x y) eqn:Hxy; try discriminate;
    destruct (Ascii.compare y z) eqn:Hyz; try discriminate; intros Hab Hbc.
  - apply ascii_compare_eq in Hxy, Hyz. subst.
    rewrite ascii_compare_refl. eauto.
  - apply ascii_compare_eq in Hxy. subst. now rewrite Hyz.
  - apply ascii_compare_eq in Hyz. subst. now rewrite Hxy.
  - now rewrite (ascii_compare_lt_trans x y z).
Qed.

Lemma string_ltb_irrefl (s : string) : String.ltb s s = false.
Proof. unfold String.ltb. now rewrite string_compare_refl. Qed.

Lemma string_ltb_trans (a b c : string) :
  String.ltb a b = true -> String.ltb b c = true -> String.ltb a c = true.
Proof.
  unfold String.ltb.
  destruct (String.compare a b) eqn:Hab; try discriminate.
  destruct (String.compare b c) eqn:Hbc; try discriminate.
  now rewrite (string_compare_lt_trans a b c).
Qed.

Lemma string_ltb_total (a b : string) :
  String.ltb a b = false -> String.ltb b a = false -> a = b.
Proof.
  unfold String.ltb. rewrite (String.compare_antisym b a).
  destruct (String.compare a b) eqn:Hab; simpl; try discriminate.
  intros _ _. now apply String.compare_eq_iff.
Qed.

Lemma eType_value_inj (t u : eType) : eType_value t = eType_value u -> t = u.
Proof. destruct t, u; simpl; intros H; try reflexivity; discriminate H. Qed.

Lemma Name_lt_irrefl (n : Name) : Name_lt n n = false.
Proof. unfold Name_lt. rewrite Z.eqb_refl. apply string_ltb_irrefl. Qed.

Lemma Name_lt_trans (a b c : Name) :
  Name_lt a b = true -> Name_lt b c = true -> Name_lt a c = true.
Proof.
  unfold Name_lt.
  destruct (Z.eqb_spec (eType_value (_type a)) (eType_value (_type b))) as [E1|N1],
           (Z.eqb_spec (eType_value (_type b)) (eType_value (_type c))) as [E2|N2],
           (Z.eqb_spec (eType_value (_type a)) (eType_value (_type c))) as [E3|N3];
    rewrite ?Z.ltb_lt; try lia.
  apply string_ltb_trans.
Qed.

Lemma Name_lt_total (a b : Name) :
  Name_lt a b = false -> Name_lt b a = false -> a = b.
Proof.
  unfold Name_lt. destruct a as [na ta], b as [nb tb]. simpl.
  destruct (Z.eqb_spec (eType_value ta) (eType_value tb)) as [E|NE].
  - rewrite <- E, Z.eqb_refl. intros H1 H2.
    apply eType_value_inj in E. f_equal; [|exact E].
    now apply string_ltb_total.
  - destruct (Z.eqb_spec (eType_value tb) (eType_value ta)); [congruence|].
    rewrite !Z.ltb_ge. lia.
Qed.

Lemma Name_lt_asym (a b : Name) : Name_lt a b = true -> Name_lt b a = false.
Proof.
  intros H. destruct (Name_lt b a) eqn:E; [|reflexivity].
  pose proof (Name_lt_trans _ _ _ H E) as T. now rewrite Name_lt_irrefl in T.
Qed.

(** ** [std::set::emplace] on the ordered list *)

Lemma set_emplace_In (x y : Name) (s : list Name) :
  In y (fst (set_emplace x s)) <-> y = x \/ In y s.
Proof.
  induction s as [|h r IH]; simpl.
  - intuition congruence.
  - destruct (Name_lt x h) eqn:Hxh; simpl.
    + intuition congruence.
    + destruct (Name_lt h x) eqn:Hhx.
      * destruct (set_emplace x r) as [r' b]. simpl in *. tauto.
      * simpl. pose proof (Name_lt_total _ _ Hxh Hhx). subst.
        intuition congruence.
Qed.

Lemma set_emplace_sorted (x : Name) (s : list Name) :
  StronglySorted (fun a b => Name_lt a b = true) s ->
  StronglySorted (fun a b => Name_lt a b = true) (fst (set_emplace x s)).
Proof.
  induction 1 as [|h r Hr IH Hh]; simpl.
  - repeat constructor.
  - destruct (Name_lt x h) eqn:Hxh; simpl.
    + constructor; [now constructor|]. constructor; [exact Hxh|].
      rewrite List.Forall_forall in *. eauto using Name_lt_trans.
    + destruct (Name_lt h x) eqn:Hhx; [|now constructor].
      pose proof (fun y => set_emplace_In x y r) as HIn.
      destruct (set_emplace x r) as [r' b]. simpl in *.
      constructor; [exact IH|].
      rewrite List.Forall_forall in *. intros y Hy. apply HIn in Hy as [->|Hy]; auto.
Qed.

Lemma set_emplace_idem (x : Name) (s : list Name) :
  fst (set_emplace x (fst (set_emplace x s))) = fst (set_emplace x s).
Proof.
  induction s as [|h r IH]; simpl.
  - now rewrite Name_lt_irrefl.
  - destruct (Name_lt x h) eqn:Hxh; simpl.
    + now rewrite Name_lt_irrefl.
    + destruct (Name_lt h x) eqn:Hhx.
      * destruct (set_emplace x r) as [r' b]. simpl in *.
        rewrite Hxh, Hhx. destruct (set_emplace x r'). simpl in *. congruence.
      * simpl. now rewrite Hxh, Hhx.
Qed.

(** The flag of [emplace] tells whether the element was absent. *)
Lemma set_emplace_inserted (x : Name) (s : list Name) :
  StronglySorted (fun a b => Name_lt a b = true) s ->
  snd (set_emplace x s) = true <-> ~ In x s.
Proof.
  induction 1 as [|h r Hr IH Hh]; simpl.
  - tauto.
  - destruct (Name_lt x h) eqn:Hxh; simpl.
    + split; [intros _|reflexivity].
      intros [->|Hx]; [now rewrite Name_lt_irrefl in Hxh|].
      rewrite List.Forall_forall in Hh. apply Hh in Hx.
      pose proof (Name_lt_trans _ _ _ Hxh Hx) as T.
      now rewrite Name_lt_irrefl in T.
    + destruct (Name_lt h x) eqn:Hhx.
      * destruct (set_emplace x r) as [r' b]. simpl in *. rewrite IH.
        split; [|tauto].
        intros Hn [->|Hx]; [now rewrite Name_lt_irrefl in Hhx|tauto].
      * simpl. pose proof (Name_lt_total _ _ Hxh Hhx). subst.
        split; [discriminate|tauto].
Qed.

(** ** Adding names *)

Lemma isUndefined_iff (a : N) :
  Address.isUndefined a = true <-> a = Address.Undefined.
Proof. unfold Address.isUndefined. apply N.eqb_eq. Qed.

Lemma Names_default_ok : Names_ok Names_default.
Proof. constructor. Qed.

Lemma data_at_ok (a : N) (nc : NameContainer) : data_ok nc -> Names_ok (data_at a nc).
Proof.
  unfold data_at. intros H. destruct (_data nc !! a) eqn:E; simpl; eauto.
  apply Names_default_ok.
Qed.

Section RegistryProperties.

Variable norm : string -> string.
Variable prefix : string.

Lemma Names_addName_ok (name : string) (type : eType) (ns : Names) :
  Names_ok ns -> Names_ok (snd (Names_addName norm name type ns)).
Proof.
  unfold Names_addName, Names_ok. intros H.
  destruct (cxx.empty name); simpl; [exact H|]. now apply set_emplace_sorted.
Qed.

Lemma Names_addName_idem (name : string) (type : eType) (ns : Names) :
  snd (Names_addName norm name type (snd (Names_addName norm name type ns)))
  = snd (Names_addName norm name type ns).
Proof.
  unfold Names_addName. destruct (cxx.empty name); simpl; [reflexivity|].
  now rewrite set_emplace_idem.
Qed.

Lemma addNameForAddress_fst (a : N) (t : string) (p : eType) (nc : NameContainer) :
  fst (addNameForAddress norm a t p nc)
  = negb (Address.isUndefined a || cxx.empty t).
Proof.
  unfold addNameForAddress, Names_addName.
  destruct (Address.isUndefined a); simpl; [reflexivity|].
  destruct (cxx.empty t); reflexivity.
Qed.

Lemma addNameForAddress_snd (a : N) (t : string) (p : eType) (nc : NameContainer) :
  Address.isUndefined a || cxx.empty t = false ->
  snd (addNameForAddress norm a t p nc)
  = with_data (<[a := snd (Names_addName norm t p (data_at a nc))]> (_data nc)) nc.
Proof.
  unfold addNameForAddress. intros ->.
  now destruct (Names_addName norm t p (data_at a nc)).
Qed.

Lemma addNameForAddress_rejected_eq (a : N) (t : string) (p : eType) (nc : NameContainer) :
  Address.isUndefined a || cxx.empty t = true ->
  addNameForAddress norm a t p nc = (false, nc).
Proof. unfold addNameForAddress. now intros ->. Qed.

Lemma addNameForAddress_data_at (a : N) (t : string) (p : eType) (nc : NameContainer) :
  Address.isUndefined a || cxx.empty t = false ->
  data_at a (snd (addNameForAddress norm a t p nc))
  = snd (Names_addName norm t p (data_at a nc)).
Proof.
  intros H. rewrite addNameForAddress_snd by exact H.
  unfold data_at at 1. simpl. now rewrite lookup_insert_eq.
Qed.

Lemma addNameForAddress_ok (a : N) (t : string) (p : eType) (nc : NameContainer) :
  data_ok nc -> data_ok (snd (addNameForAddress norm a t p nc)).
Proof.
  intros H. destruct (Address.isUndefined a || cxx.empty t) eqn:E.
  - now rewrite addNameForAddress_rejected_eq.
  - rewrite addNameForAddress_snd by exact E. intros b ns. simpl.
    rewrite lookup_insert. case_decide; [|apply H].
    intros [= <-]. apply Names_addName_ok, data_at_ok, H.
Qed.

Lemma addNameForAddress_twice (a : N) (t : string) (p : eType) (nc : NameContainer) :
  snd (addNameForAddress norm a t p (snd (addNameForAddress norm a t p nc)))
  = snd (addNameForAddress norm a t p nc).
Proof.
  destruct (Address.isUndefined a || cxx.empty t) eqn:E.
  - now rewrite !addNameForAddress_rejected_eq.
  - rewrite (addNameForAddress_snd a t p (snd _)) by exact E.
    rewrite addNameForAddress_data_at by exact E.
    rewrite Names_addName_idem.
    rewrite addNameForAddress_snd by exact E.
    unfold with_data. simpl. now rewrite insert_insert_eq.
Qed.

(** C6: adding an empty text at any address, or any text at the undefined
    address, returns [false] and leaves the registry as it was; in particular
    the collection at every address is unaltered. *)
Theorem addNameForAddress_rejects (a : N) (t' : string) (p : eType)
    (nc : NameContainer) :
  addNameForAddress norm a "" p nc = (false, nc)
  /\ addNameForAddress norm Address.Undefined t' p nc = (false, nc)
  /\ (forall b,
        _data (snd (addNameForAddress norm a "" p nc)) !! b = _data nc !! b
        /\ _data (snd (addNameForAddress norm Address.Undefined t' p nc)) !! b
           = _data nc !! b).
Proof.
  assert (H1 : addNameForAddress norm a "" p nc = (false, nc)).
  { apply addNameForAddress_rejected_eq. simpl. apply orb_true_r. }
  assert (H2 : addNameForAddress norm Address.Undefined t' p nc = (false, nc)).
  { apply addNameForAddress_rejected_eq. reflexivity. }
  rewrite H1, H2. auto.
Qed.

(** C8: a second [addNameForAddress] with the same arguments leaves the
    registry, hence the collection at the address, its elements and its size,
    exactly as the first call left them. *)
Theorem addNameForAddress_idempotent (a : N) (t : string) (p : eType)
    (nc : NameContainer) :
  let once := snd (addNameForAddress norm a t p nc) in
  let twice := snd (addNameForAddress norm a t p once) in
  twice = once
  /\ _names (data_at a twice) = _names (data_at a once)
  /\ Names_size (data_at a twice) = Names_size (data_at a once).
Proof.
  simpl. now rewrite addNameForAddress_twice.
Qed.

(** C1 (amended): [addNameForAddress] returns [true] exactly when the address
    is defined and the text is not empty, whether or not the entry was in the
    collection already: a second call with the same arguments returns the same
    result as the first, and changes nothing. *)
Theorem addNameForAddress_result (a : N) (t : string) (p : eType)
    (nc : NameContainer) :
  let first := addNameForAddress norm a t p nc in
  let second := addNameForAddress norm a t p (snd first) in
  fst first = negb (Address.isUndefined a || cxx.empty t)
  /\ fst second = fst first
  /\ snd second = snd first.
Proof.
  simpl. rewrite !addNameForAddress_fst. auto using addNameForAddress_twice.
Qed.

End RegistryProperties.

(** ** The preferred name *)

Lemma getPreferredName_head (ns : Names) (n : Name) :
  Names_ok ns -> In n (_names ns) ->
  n = getPreferredName ns \/ Name_lt (getPreferredName ns) n = true.
Proof.
  unfold Names_ok, getPreferredName. destruct (_names ns) as [|h r]; simpl.
  - tauto.
  - intros Hs [->|Hn]; [now left|right].
    inversion Hs as [|? ? _ Hall]; subst.
    rewrite List.Forall_forall in Hall. auto.
Qed.

(** What [Name_lt] compares: the type first, the text within one type. *)
Lemma Name_lt_keys (a b : Name) :
  Name_lt a b = true ->
  eType_value (_type a) < eType_value (_type b)
  \/ (_type a = _type b /\ String.ltb (_name a) (_name b) = true).
Proof.
  unfold Name_lt.
  destruct (Z.eqb_spec (eType_value (_type a)) (eType_value (_type b))) as [E|NE].
  - intros H. right. split; [now apply eType_value_inj|exact H].
  - intros H. left. now apply Z.ltb_lt.
Qed.

(** C7: the preferred name of a non-empty collection is an element of it,
    and every other element comes after it by provenance (a larger value of
    the type) or, with the same provenance, by text (a lexically larger
    text); an empty collection, and [getPreferredNameForAddress] at an address
    that has no collection yet, give the invalid sentinel.  The functions are
    total. *)
Theorem getPreferredName_minimum (ns : Names) :
  Names_ok ns ->
  (Names_empty ns = false ->
     In (getPreferredName ns) (_names ns)
     /\ forall n, In n (_names ns) ->
          n = getPreferredName ns
          \/ eType_value (_type (getPreferredName ns)) < eType_value (_type n)
          \/ (_type (getPreferredName ns) = _type n
              /\ String.ltb (_name (getPreferredName ns)) (_name n) = true))
  /\ (Names_empty ns = true -> getPreferredName ns = Name_default)
  /\ (forall nc a, _data nc !! a = None ->
        fst (getPreferredNameForAddress a nc) = Name_default)
  /\ Name_valid Name_default = false.
Proof.
  intros Hok. split; [|split; [|split; [|reflexivity]]].
  - intros Hne. split.
    + unfold Names_empty, getPreferredName in *.
      destruct (_names ns); [discriminate|now left].
    + intros n Hn.
      destruct (getPreferredName_head ns n Hok Hn) as [E|Hlt]; [now left|right].
      now apply Name_lt_keys.
  - unfold Names_empty, getPreferredName.
    destruct (_names ns); [reflexivity|discriminate].
  - intros nc a Ha. unfold getPreferredNameForAddress, data_at.
    now rewrite Ha.
Qed.


(** ** Reading an ordinal file *)

Lemma until_newline_line (l rest : string) :
  has_newline l = false ->
  cxx.until_newline (l +:+ String cxx.newline rest) = (l, Some rest).
Proof.
  induction l as [|c l IH]; simpl.
  - reflexivity.
  - intros [Hc Hl]%orb_false_iff. rewrite Hc, IH by exact Hl. reflexivity.
Qed.

Lemma until_newline_last (l : string) :
  has_newline l = false -> cxx.until_newline l = (l, None).
Proof.
  induction l as [|c l IH]; simpl; [reflexivity|].
  intros [Hc Hl]%orb_false_iff. rewrite Hc, IH by exact Hl. reflexivity.
Qed.

Lemma append_assoc (a b c : string) : (a +:+ b) +:+ c = a +:+ (b +:+ c).
Proof.
  induction a as [|x a IH]; [reflexivity|].
  change (String x ((a +:+ b) +:+ c) = String x (a +:+ (b +:+ c))).
  now rewrite IH.
Qed.

Lemma append_empty_r (a : string) : a +:+ "" = a.
Proof.
  induction a as [|x a IH]; [reflexivity|].
  change (String x (a +:+ "") = String x a). now rewrite IH.
Qed.

Lemma length_append (a b : string) :
  String.length (a +:+ b) = (String.length a + String.length b)%nat.
Proof. induction a as [|c a IH]; simpl; [reflexivity|now rewrite IH]. Qed.

(** With fuel beyond the length of the text, the loop handles exactly the
    lines closed by a newline, first to last, and drops what follows the last
    newline. *)
Lemma read_ords_lines (ls : list string) (last : string) :
  Forall (fun l => has_newline l = false) ls ->
  has_newline last = false ->
  forall (fuel : nat) (line : string) (ordMap : ImportOrdMap),
    (String.length (terminated ls +:+ last) < fuel)%nat ->
    read_ords fuel (cxx.stream_of (terminated ls +:+ last)) line ordMap
    = fold_left (fun m l => read_ord_line l m) ls ordMap.
Proof.
  intros Hls Hlast. induction Hls as [|l ls Hl Hls IH]; intros fuel line ordMap Hfuel.
  - destruct fuel as [|fuel]; [lia|]. simpl.
    unfold cxx.getline. simpl. now rewrite until_newline_last.
  - destruct fuel as [|fuel]; [simpl in Hfuel; lia|].
    cbn [terminated fold_left] in *.
    assert (E : (l +:+ String cxx.newline (terminated ls)) +:+ last
                = l +:+ String cxx.newline (terminated ls +:+ last)).
    { apply append_assoc. }
    rewrite E in *. cbn [read_ords]. unfold cxx.getline. simpl.
    rewrite until_newline_line by exact Hl. simpl.
    apply IH. rewrite length_append in Hfuel. simpl in Hfuel. lia.
Qed.

(** C10: when the text of an ordinal file does not end with a newline, what
    follows the last newline is never parsed: the map is the one built from
    the newline-terminated lines alone, all of which are processed in order.
    A file that ends with a newline is the case [last = ""]. *)
Theorem read_ord_file_drops_unterminated_line (ls : list string) (last : string) :
  Forall (fun l => has_newline l = false) ls ->
  has_newline last = false ->
  read_ord_file (cxx.stream_of (terminated ls +:+ last))
  = fold_left (fun m l => read_ord_line l m) ls ∅
  /\ read_ord_file (cxx.stream_of (terminated ls +:+ last))
     = read_ord_file (cxx.stream_of (terminated ls))
  /\ read_ord_file (cxx.stream_of (terminated ls))
     = fold_left (fun m l => read_ord_line l m) ls ∅.
Proof.
  intros Hls Hlast.
  assert (H1 : read_ord_file (cxx.stream_of (terminated ls +:+ last))
               = fold_left (fun m l => read_ord_line l m) ls ∅).
  { unfold read_ord_file. apply read_ords_lines; [exact Hls|exact Hlast|].
    simpl. lia. }
  assert (H2 : read_ord_file (cxx.stream_of (terminated ls))
               = fold_left (fun m l => read_ord_line l m) ls ∅).
  { unfold read_ord_file.
    pose proof (read_ords_lines ls "" Hls eq_refl) as H.
    assert (E : terminated ls +:+ "" = terminated ls).
    { apply append_empty_r. }
    rewrite E in H. apply H. simpl. lia. }
  rewrite H1, H2. auto.
Qed.



(** *** Lines that are not an ordinal declaration *)

(** (X6) A line of white space only leaves [ord] at -1 and adds nothing. *)
Lemma read_ord_line_blank (line : string) (ordMap : ImportOrdMap) :
  cxx.skipws line = "" -> read_ord_line line ordMap = ordMap.
Proof.
  intros H. unfold read_ord_line, cxx.extract_int, cxx.sentry. simpl.
  rewrite H. reflexivity.
Qed.

(** A line that starts with a character that is neither white space, a sign
    nor a digit makes the extraction fail after the sentry, which stores 0 in
    [ord]: the line defines ordinal 0 with an empty name. *)
Lemma read_ord_line_not_a_number (c : ascii) (r : string) (ordMap : ImportOrdMap) :
  cxx.isspace c = false -> cxx.isdigit c = false ->
  Ascii.eqb c "-" = false -> Ascii.eqb c "+" = false ->
  read_ord_line (String c r) ordMap = <[0 := ""]> ordMap.
Proof.
  intros Hs Hd Hm Hp.
  unfold read_ord_line, cxx.extract_int, cxx.extract_string, cxx.sentry,
    cxx.num_get_long.
  cbn. rewrite Hs. cbn. rewrite Hm, Hp. cbn. rewrite Hd. reflexivity.
Qed.

(** C3 (as the code behaves): in a file whose first line declares ordinal 0
    and whose second line is not an ordinal declaration, the second line
    replaces the entry of ordinal 0 by an empty name, so that ordinal 0 of
    the library no longer resolves; a blank line and a line with a negative
    ordinal add nothing. *)
Theorem read_ord_file_unparsable_line :
  read_ord_file
    (cxx.stream_of (terminated ["0 Init"; "garbage here"; ""; "-3 Neg"]))
  = {[ 0 := "" ]}
  /\ read_ord_file (cxx.stream_of (terminated ["0 Init"; ""; "-3 Neg"]))
     = {[ 0 := "Init" ]}
  /\ fst (fst (getNameFromImportLibAndOrd "bar" 0 sample_registry
                 {| files := {[ "ords/bar.ord" :=
                                  terminated ["0 Init"; "garbage here"] ]};
                    opened := [] |})) = ""
  /\ fst (fst (getNameFromImportLibAndOrd "bar" 0 sample_registry
                 {| files := {[ "ords/bar.ord" := terminated ["0 Init"] ]};
                    opened := [] |})) = "Init".
Proof. repeat split; vm_compute; reflexivity. Qed.

(** ** The ordinal cache *)

Lemma loadImportOrds_absent (L : string) (nc : NameContainer) (w : World) :
  files w !! ordPath nc L = None ->
  loadImportOrds L nc w
  = (false, nc, {| files := files w; opened := opened w ++ [ordPath nc L] |}).
Proof.
  unfold loadImportOrds, ifstream_open, ordPath. now intros ->.
Qed.

Lemma loadImportOrds_present (L content : string) (nc : NameContainer) (w : World) :
  files w !! ordPath nc L = Some content ->
  loadImportOrds L nc w
  = (true,
     with_dllOrds
       (map_emplace L (read_ord_file (cxx.stream_of content)) (_dllOrds nc)) nc,
     {| files := files w; opened := opened w ++ [ordPath nc L] |}).
Proof.
  unfold loadImportOrds, ifstream_open, ordPath. now intros ->.
Qed.

(** A successful load leaves an entry for the library in the cache, so the
    second [find] of [getNameFromImportLibAndOrd] never misses. *)
Lemma loadImportOrds_cached (L : string) (nc : NameContainer) (w : World) :
  fst (fst (loadImportOrds L nc w)) = true ->
  is_Some (_dllOrds (snd (fst (loadImportOrds L nc w))) !! L).
Proof.
  destruct (files w !! ordPath nc L) as [content|] eqn:E.
  - rewrite (loadImportOrds_present L content) by exact E. simpl. intros _.
    unfold map_emplace. destruct (_dllOrds nc !! L) eqn:E'.
    + rewrite E'. eauto.
    + rewrite lookup_insert_eq. eauto.
  - rewrite loadImportOrds_absent by exact E. discriminate.
Qed.

Lemma getNameFromImportLibAndOrd_hit (L : string) (o : Z) (m : ImportOrdMap)
    (nc : NameContainer) (w : World) :
  _dllOrds nc !! L = Some m ->
  getNameFromImportLibAndOrd L o nc w = (default "" (m !! o), nc, w).
Proof. unfold getNameFromImportLibAndOrd. now intros ->. Qed.

Lemma getNameFromImportLibAndOrd_absent (L : string) (o : Z)
    (nc : NameContainer) (w : World) :
  _dllOrds nc !! L = None -> files w !! ordPath nc L = None ->
  getNameFromImportLibAndOrd L o nc w
  = ("", nc, {| files := files w; opened := opened w ++ [ordPath nc L] |}).
Proof.
  intros Hc Hf. unfold getNameFromImportLibAndOrd. rewrite Hc.
  now rewrite loadImportOrds_absent by exact Hf.
Qed.

Lemma getNameFromImportLibAndOrd_present (L content : string) (o : Z)
    (nc : NameContainer) (w : World) :
  _dllOrds nc !! L = None -> files w !! ordPath nc L = Some content ->
  getNameFromImportLibAndOrd L o nc w
  = (default "" (read_ord_file (cxx.stream_of content) !! o),
     with_dllOrds (<[L := read_ord_file (cxx.stream_of content)]> (_dllOrds nc)) nc,
     {| files := files w; opened := opened w ++ [ordPath nc L] |}).
Proof.
  intros Hc Hf. unfold getNameFromImportLibAndOrd. rewrite Hc.
  rewrite (loadImportOrds_present L content) by exact Hf.
  unfold map_emplace. rewrite Hc. simpl. now rewrite lookup_insert_eq.
Qed.

(** C2 (amended): on the first request for a library (no entry in the cache),
    when the ordinal file is absent the call returns the empty string, leaves
    the registry and its cache as they were (no entry for the library), and
    a later call opens the file again; when the file is present the call
    caches the map read from it and a later call opens nothing. *)
Theorem getNameFromImportLibAndOrd_cache (L : string) (o o' : Z)
    (nc : NameContainer) (w : World) :
  _dllOrds nc !! L = None ->
  let '(r, nc1, w1) := getNameFromImportLibAndOrd L o nc w in
  let '(r', nc2, w2) := getNameFromImportLibAndOrd L o' nc1 w1 in
  match files w !! ordPath nc L with
  | None =>
      r = "" /\ r' = "" /\ nc1 = nc /\ nc2 = nc
      /\ _dllOrds nc2 !! L = None
      /\ opened w2 = (opened w ++ [ordPath nc L; ordPath nc L])%list
  | Some content =>
      let m := read_ord_file (cxx.stream_of content) in
      r = default "" (m !! o) /\ r' = default "" (m !! o')
      /\ _dllOrds nc1 !! L = Some m /\ nc2 = nc1
      /\ opened w2 = (opened w ++ [ordPath nc L])%list
  end.
Proof.
  intros Hc. destruct (files w !! ordPath nc L) as [content|] eqn:Hf.
  - rewrite (getNameFromImportLibAndOrd_present L content) by assumption.
    erewrite getNameFromImportLibAndOrd_hit
      by (simpl; apply lookup_insert_eq).
    simpl. rewrite lookup_insert_eq. auto.
  - rewrite getNameFromImportLibAndOrd_absent by assumption.
    rewrite getNameFromImportLibAndOrd_absent by assumption.
    simpl. rewrite <- app_assoc. repeat split; auto.
Qed.

Lemma getNameFromImportLibAndOrd_opened (L : string) (o : Z)
    (nc : NameContainer) (w : World) :
  opened (snd (getNameFromImportLibAndOrd L o nc w))
  = (opened w ++ match _dllOrds nc !! L with
                 | Some _ => []
                 | None => [ordPath nc L]
                 end)%list.
Proof.
  destruct (_dllOrds nc !! L) as [m|] eqn:Hc.
  - rewrite (getNameFromImportLibAndOrd_hit L o m) by exact Hc. simpl.
    now rewrite app_nil_r.
  - destruct (files w !! ordPath nc L) as [content|] eqn:Hf.
    + now rewrite (getNameFromImportLibAndOrd_present L content) by assumption.
    + now rewrite getNameFromImportLibAndOrd_absent by assumption.
Qed.

Lemma getNameFromImportLibAndOrd_data (L : string) (o : Z)
    (nc : NameContainer) (w : World) :
  _data (snd (fst (getNameFromImportLibAndOrd L o nc w))) = _data nc.
Proof.
  destruct (_dllOrds nc !! L) as [m|] eqn:Hc.
  - now rewrite (getNameFromImportLibAndOrd_hit L o m) by exact Hc.
  - destruct (files w !! ordPath nc L) as [content|] eqn:Hf.
    + now rewrite (getNameFromImportLibAndOrd_present L content) by assumption.
    + now rewrite getNameFromImportLibAndOrd_absent by assumption.
Qed.

(** ** Population and the provider *)

Lemma fold_left_invariant {S X : Type} (P : S -> Prop) (f : S -> X -> S)
    (l : list X) (s : S) :
  (forall s x, P s -> P (f s x)) -> P s -> P (fold_left f l s).
Proof.
  intros Hf. revert s. induction l as [|x l IH]; simpl; auto.
Qed.

Section PopulationProperties.

Variable norm : string -> string.
Variable prefix : string.

Lemma addAll_ok (type : eType) (l : list (N * string)) (nc : NameContainer) :
  data_ok nc -> data_ok (addAll norm type l nc).
Proof.
  unfold addAll. apply fold_left_invariant.
  intros s x. apply addNameForAddress_ok.
Qed.

Lemma initFromConfig_ok (nc : NameContainer) :
  data_ok nc -> data_ok (initFromConfig norm nc).
Proof.
  intros H. unfold initFromConfig.
  repeat apply addAll_ok. now apply addNameForAddress_ok.
Qed.

Lemma initFromDebug_ok (nc : NameContainer) :
  data_ok nc -> data_ok (initFromDebug norm nc).
Proof.
  intros H. unfold initFromDebug. destruct (_debug nc) as [d|]; [|exact H].
  apply fold_left_invariant; [|now apply addAll_ok].
  intros s [[addr|] name] Hs; simpl; [now apply addNameForAddress_ok|exact Hs].
Qed.

Lemma initFromImport_ok (impTbl : ImportTable) (imp : Import)
    (st : NameContainer * World) :
  data_ok (fst st) -> data_ok (fst (initFromImport norm prefix impTbl imp st)).
Proof.
  destruct st as [nc w]. simpl. intros H. unfold initFromImport.
  destruct (cxx.empty (imp_getName imp)).
  - destruct (getOrdinalNumber imp) as [ord|].
    + pose proof (getNameFromImportLibAndOrd_data
        (removeSuffix (cxx.transform_tolower
           (getLibrary impTbl (getLibraryIndex imp))) ".dll")
        (cxx.to_int (Z.of_N ord)) nc w) as Hd.
      destruct (getNameFromImportLibAndOrd _ _ nc w) as [[name nc'] w'].
      simpl in Hd.
      assert (H' : data_ok nc') by (unfold data_ok; now rewrite Hd).
      destruct (cxx.empty name && true); simpl; now apply addNameForAddress_ok.
    + destruct (cxx.empty (imp_getName imp) && false); simpl;
        now apply addNameForAddress_ok.
  - destruct (cxx.empty (imp_getName imp) && false); simpl;
      now apply addNameForAddress_ok.
Qed.

Lemma initFromImage_ok (nc : NameContainer) (w : World) :
  data_ok nc -> data_ok (fst (initFromImage norm prefix nc w)).
Proof.
  intros H. unfold initFromImage.
  assert (H1 : data_ok (fst
    match getImportTable (_image nc) with
    | Some impTbl =>
        fold_left (fun st imp => initFromImport norm prefix impTbl imp st)
          (imports impTbl) (nc, w)
    | None => (nc, w)
    end)).
  { destruct (getImportTable (_image nc)) as [impTbl|]; [|exact H].
    apply (fold_left_invariant (fun st => data_ok (fst st))); [|exact H].
    intros s x. apply initFromImport_ok. }
  destruct (match getImportTable (_image nc) with Some _ => _ | None => _ end)
    as [nc1 w1].
  simpl in *. apply addAll_ok.
  assert (H2 : data_ok
    match getExportTable (_image nc) with
    | Some exTbl => addAll norm EXPORT exTbl nc1
    | None => nc1
    end).
  { destruct (getExportTable (_image nc)); [now apply addAll_ok|exact H1]. }
  destruct (getEpAddress (_image nc)); [apply addNameForAddress_ok|];
    (apply fold_left_invariant; [|exact H2]);
    intros s x Hs; destruct (getRealAddress x);
    try apply addNameForAddress_ok; exact Hs.
Qed.

(** (X2) Every collection of a freshly constructed registry is a well-formed
    set: strictly ascending, without duplicates. *)
Lemma NameContainer_new_ok (m : N) (c : Config) (d : option DebugFormat)
    (i : FileImage) (dm : N) (w : World) :
  data_ok (fst (NameContainer_new norm prefix m c d i dm w)).
Proof.
  unfold NameContainer_new.
  apply initFromImage_ok, initFromDebug_ok, initFromConfig_ok.
  intros a ns. simpl. now rewrite lookup_empty.
Qed.

(** C4 (amended): [getNameFromImportLibAndOrd] does not normalise the library
    name: on a cache miss the file it opens is named after the library
    exactly as passed.  Lower-casing and stripping a trailing ".dll" is what
    the import loop of [initFromImage] does before it calls: for an unnamed
    import with an ordinal, the files opened are those of the call with the
    normalised library name. *)
Theorem getNameFromImportLibAndOrd_verbatim (L : string) (o : Z)
    (nc : NameContainer) (w : World) (impTbl : ImportTable) (addr : N)
    (i : nat) (ord : N) :
  opened (snd (getNameFromImportLibAndOrd L o nc w))
  = (opened w ++ match _dllOrds nc !! L with
                 | Some _ => []
                 | None => [getOrdinalNumbersDirectory (_config nc)
                            +:+ "/" +:+ L +:+ ".ord"]
                 end)%list
  /\ let imp := {| imp_getAddress := addr; imp_getName := "";
                   getLibraryIndex := i; getOrdinalNumber := Some ord |} in
     let libN := removeSuffix (cxx.transform_tolower (getLibrary impTbl i)) ".dll" in
     opened (snd (initFromImport norm prefix impTbl imp (nc, w)))
     = opened (snd (getNameFromImportLibAndOrd libN (cxx.to_int (Z.of_N ord)) nc w)).
Proof.
  split; [apply getNameFromImportLibAndOrd_opened|].
  simpl. unfold initFromImport. simpl.
  destruct (getNameFromImportLibAndOrd _ _ nc w) as [[name nc'] w'].
  simpl. now destruct (cxx.empty name && true).
Qed.

Lemma map_emplace_present {V : Type} (m : N) (v r : V) (P : gmap N V) :
  P !! m = Some r -> map_emplace m v P = P.
Proof. unfold map_emplace. now intros ->. Qed.

Lemma map_emplace_lookup {V : Type} (m : N) (v : V) (P : gmap N V) :
  map_emplace m v P !! m = Some (default v (P !! m)).
Proof.
  unfold map_emplace. destruct (P !! m) eqn:E; simpl; [exact E|].
  apply lookup_insert_eq.
Qed.

(** C9: when the provider already holds a registry for a module, [addNames]
    for that module, whatever the other arguments, leaves the table as it is
    and returns the pointer to the slot of that module, which still holds the
    same registry.  Hence of two calls in a row the second returns the pointer
    the first returned, to a registry that is the one the first call left
    there: the one the first call constructed, if the module was new. *)
Theorem addNames_first_writer_wins (m : N) (P : gmap N NameContainer)
    (c c' : Config) (d d' : option DebugFormat) (i i' : FileImage) (dm dm' : N)
    (w : World) :
  (forall r, P !! m = Some r ->
     let '(p, P', _) :=
       addNames norm prefix (Some m) (Some c) d (Some i) (Some dm) P w in
     p = Some m /\ P' = P /\ deref p P' = Some r)
  /\ (let '(p1, P1, w1) :=
        addNames norm prefix (Some m) (Some c) d (Some i) (Some dm) P w in
      let '(p2, P2, _) :=
        addNames norm prefix (Some m) (Some c') d' (Some i') (Some dm') P1 w1 in
      p2 = p1 /\ P2 = P1 /\ deref p2 P2 = deref p1 P1
      /\ (P !! m = None ->
          deref p2 P2 = Some (fst (NameContainer_new norm prefix m c d i dm w)))).
Proof.
  split.
  - intros r Hr. unfold addNames.
    destruct (NameContainer_new norm prefix m c d i dm w) as [nc w'].
    rewrite (map_emplace_present m nc r) by exact Hr. simpl. auto.
  - unfold addNames.
    destruct (NameContainer_new norm prefix m c d i dm w) as [nc w1].
    destruct (NameContainer_new norm prefix m c' d' i' dm' w1) as [nc' w2].
    pose proof (map_emplace_lookup m nc P) as Hl.
    rewrite (map_emplace_present m nc' _ _ Hl).
    repeat split. intros Hn. simpl. now rewrite Hl, Hn.
Qed.

End PopulationProperties.

(** ** Construction of a name *)

(** C5: a name constructed from "_main" has the text "main", provided the
    prefix normalisation leaves "_main" alone (or already yields "main");
    any text whose normalised form is not "_main" is stored as that
    normalised form, whole: so is every raw text other than "_main" when
    "_main" is the only text the normalisation maps to "_main".  The
    provenance is stored as given. *)
Theorem Name_new_text (norm : string -> string) (p : eType) :
  (norm "_main" = "_main" \/ norm "_main" = "main" ->
     _name (Name_new norm "_main" p) = "main")
  /\ (forall raw, norm raw <> "_main" -> _name (Name_new norm raw p) = norm raw)
  /\ ((forall s, norm s = "_main" -> s = "_main") ->
      forall raw, raw <> "_main" -> _name (Name_new norm raw p) = norm raw)
  /\ (forall raw, _type (Name_new norm raw p) = p).
Proof.
  assert (Hother : forall raw, norm raw <> "_main" ->
                     _name (Name_new norm raw p) = norm raw).
  { intros raw Hraw. unfold Name_new. simpl.
    destruct (String.eqb_spec (norm raw) "_main"); congruence. }
  split; [|split; [exact Hother|split; [|reflexivity]]].
  - unfold Name_new. simpl. intros [-> | ->]; reflexivity.
  - intros Hinj raw Hraw. apply Hother. intros E. apply Hraw, Hinj, E.
Qed.

(** ** Ranking *)

(** (X1) [Name::operator<] is a strict total order on names. *)
Theorem Name_lt_strict_total_order :
  (forall n, Name_lt n n = false)
  /\ (forall a b c, Name_lt a b = true -> Name_lt b c = true -> Name_lt a c = true)
  /\ (forall a b, Name_lt a b = true \/ a = b \/ Name_lt b a = true).
Proof.
  split; [exact Name_lt_irrefl|]. split; [exact Name_lt_trans|].
  intros a b. destruct (Name_lt a b) eqn:Hab; [now left|].
  destruct (Name_lt b a) eqn:Hba; [now right; right|].
  right; left. now apply Name_lt_total.
Qed.

Lemma Name_lt_type (a b : Name) :
  Name_lt a b = true -> eType_value (_type a) <= eType_value (_type b).
Proof.
  unfold Name_lt.
  destruct (Z.eqb_spec (eType_value (_type a)) (eType_value (_type b))); [lia|].
  rewrite Z.ltb_lt. lia.
Qed.

(** Two strictly ascending lists with the same elements are the same list. *)
Lemma sorted_same_elements (l1 l2 : list Name) :
  StronglySorted (fun a b => Name_lt a b = true) l1 ->
  StronglySorted (fun a b => Name_lt a b = true) l2 ->
  (forall x, In x l1 <-> In x l2) -> l1 = l2.
Proof.
  intros H1. revert l2.
  induction H1 as [|h1 r1 Hr1 IH Hall1]; intros l2 H2 Heq.
  - destruct l2 as [|n l2]; [reflexivity|].
    exfalso. apply (Heq n). now left.
  - inversion H2 as [|h2 r2 Hr2 Hall2]; subst.
    + exfalso. apply (Heq h1). now left.
    + rewrite List.Forall_forall in Hall1, Hall2.
      assert (E : h1 = h2).
      { destruct (proj1 (Heq h1) (or_introl eq_refl)) as [E|Hin1]; [now symmetry|].
        destruct (proj2 (Heq h2) (or_introl eq_refl)) as [E|Hin2]; [exact E|].
        apply Hall2 in Hin1. apply Hall1 in Hin2.
        now rewrite (Name_lt_asym _ _ Hin1) in Hin2. }
      subst h2. f_equal. apply IH; [exact Hr2|].
      intros x. split; intros Hx.
      * destruct (proj1 (Heq x) (or_intror Hx)) as [E|Hin]; [|exact Hin].
        subst x. apply Hall1 in Hx. now rewrite Name_lt_irrefl in Hx.
      * destruct (proj2 (Heq x) (or_intror Hx)) as [E|Hin]; [|exact Hin].
        subst x. apply Hall2 in Hx. now rewrite Name_lt_irrefl in Hx.
Qed.

Lemma set_emplace_comm (x y : Name) (s : list Name) :
  StronglySorted (fun a b => Name_lt a b = true) s ->
  fst (set_emplace x (fst (set_emplace y s)))
  = fst (set_emplace y (fst (set_emplace x s))).
Proof.
  intros Hs. apply sorted_same_elements.
  - now do 2 apply set_emplace_sorted.
  - now do 2 apply set_emplace_sorted.
  - intros z. rewrite !set_emplace_In. tauto.
Qed.

Section Ranking.

Variable norm : string -> string.

(** (X3) The collection, hence the preferred name, does not depend on the
    order in which two names were added. *)
Theorem Names_addName_order_independent (t1 t2 : string) (p1 p2 : eType)
    (ns : Names) :
  Names_ok ns ->
  snd (Names_addName norm t1 p1 (snd (Names_addName norm t2 p2 ns)))
  = snd (Names_addName norm t2 p2 (snd (Names_addName norm t1 p1 ns))).
Proof.
  unfold Names_ok, Names_addName. intros Hok.
  destruct (cxx.empty t1), (cxx.empty t2); simpl; try reflexivity.
  f_equal. now apply set_emplace_comm.
Qed.

(** (X4) After a name was added at an address, the preferred name there is an
    element of the collection whose provenance is not ranked after the one
    just added, and it is the added name itself when nothing in the
    collection is smaller. *)
Theorem getPreferredNameForAddress_after_add (a : N) (t : string) (p : eType)
    (nc : NameContainer) :
  data_ok nc -> Address.isUndefined a = false -> cxx.empty t = false ->
  let nc' := snd (addNameForAddress norm a t p nc) in
  let pref := fst (getPreferredNameForAddress a nc') in
  In (Name_new norm t p) (_names (data_at a nc'))
  /\ In pref (_names (data_at a nc'))
  /\ eType_value (_type pref) <= eType_value p
  /\ (pref = Name_new norm t p \/ Name_lt pref (Name_new norm t p) = true).
Proof.
  intros Hok Ha Ht. cbv zeta.
  assert (Hin : In (Name_new norm t p)
                  (_names (data_at a (snd (addNameForAddress norm a t p nc))))).
  { rewrite addNameForAddress_data_at by (now rewrite Ha, Ht).
    unfold Names_addName. rewrite Ht. simpl. apply set_emplace_In. now left. }
  assert (Hs : Names_ok (data_at a (snd (addNameForAddress norm a t p nc)))).
  { apply data_at_ok, addNameForAddress_ok, Hok. }
  unfold getPreferredNameForAddress. simpl.
  pose proof (getPreferredName_head _ _ Hs Hin) as Hmin.
  split; [exact Hin|]. split.
  - unfold getPreferredName in *.
    destruct (_names (data_at a (snd (addNameForAddress norm a t p nc))));
      [destruct Hin|now left].
  - split; [|destruct Hmin as [E|L]; [left; now symmetry|now right]].
    destruct Hmin as [<-|L]; [simpl; lia|].
    apply Name_lt_type in L. exact L.
Qed.

(** (X5) [addNames] with a null module, configuration, image or demangler returns
    [nullptr] and leaves the table (and the files) untouched; a missing debug
    format is no obstacle. *)
Theorem addNames_null_argument (prefix : string) (m : option N)
    (c : option Config) (d : option DebugFormat) (i : option FileImage)
    (dm : option N) (P : gmap N NameContainer) (w : World) :
  addNames norm prefix None c d i dm P w = (None, P, w)
  /\ addNames norm prefix m None d i dm P w = (None, P, w)
  /\ addNames norm prefix m c d None dm P w = (None, P, w)
  /\ addNames norm prefix m c d i None P w = (None, P, w)
  /\ (forall m0 c0 i0 dm0,
        fst (fst (addNames norm prefix (Some m0) (Some c0) None (Some i0)
                    (Some dm0) P w)) = Some m0).
Proof.
  unfold addNames. repeat split.
  - now destruct m.
  - now destruct m, c.
  - now destruct m, c, i.
  - intros m0 c0 i0 dm0.
    now destruct (NameContainer_new norm prefix m0 c0 None i0 dm0 w).
Qed.

End Ranking.

(** ** Concrete instances *)

Lemma Name_new_text_witness :
  _name (Name_new verbatimPrefix "_main" IMPORT) = "main"
  /\ _name (Name_new verbatimPrefix "CreateWidget" IMPORT) = "CreateWidget".
Proof.
  destruct (Name_new_text verbatimPrefix IMPORT) as (Hmain & _ & Hother & _).
  split.
  - apply Hmain. left. reflexivity.
  - apply Hother; [intros s Hs; exact Hs | discriminate].
Defined.

(** C1 (as stated) fails: the second of two identical calls returns [true]
    although [emplace] inserts nothing and the registry stays as it was. *)
Lemma addNameForAddress_duplicate_true :
  let nc1 :=
    snd (addNameForAddress verbatimPrefix 4096%N "init" CONFIG_FUNCTION
           sample_registry) in
  addNameForAddress verbatimPrefix 4096%N "init" CONFIG_FUNCTION nc1 = (true, nc1)
  /\ snd (set_emplace (Name_new verbatimPrefix "init" CONFIG_FUNCTION)
            (_names (data_at 4096%N nc1))) = false
  /\ Names_size (data_at 4096%N nc1) = 1%nat.
Proof. vm_compute. repeat split; reflexivity. Qed.

(** C2 (as stated) fails: a missing ordinal file leaves no entry in the
    cache, and the second request opens the same file again. *)
Lemma missing_ordinal_file_reopened :
  let '(r1, nc1, w1) :=
    getNameFromImportLibAndOrd "missing-lib" 1 sample_registry sample_world in
  let '(r2, nc2, w2) := getNameFromImportLibAndOrd "missing-lib" 1 nc1 w1 in
  r1 = "" /\ r2 = ""
  /\ _dllOrds nc1 !! "missing-lib" = None
  /\ opened w1 = ["ords/missing-lib.ord"]
  /\ opened w2 = ["ords/missing-lib.ord"; "ords/missing-lib.ord"].
Proof. vm_compute. repeat split; reflexivity. Qed.

Lemma getNameFromImportLibAndOrd_cache_witness :
  let '(r, nc1, w1) :=
    getNameFromImportLibAndOrd "foo" 7 sample_registry sample_world in
  let '(r', nc2, w2) := getNameFromImportLibAndOrd "foo" 99 nc1 w1 in
  r = "CreateWidget" /\ r' = ""
  /\ _dllOrds nc1 !! "foo" = Some {[ 7 := "CreateWidget" ]}
  /\ nc2 = nc1
  /\ opened w2 = ["ords/foo.ord"].
Proof.
  generalize (getNameFromImportLibAndOrd_cache "foo" 7 99 sample_registry
                sample_world eq_refl).
  vm_compute. intros H. exact H.
Defined.

(** C4 (as stated) fails: with the file of library "foo" in place, asking
    for "FOO.DLL" opens "ords/FOO.DLL.ord" and resolves nothing, while the
    normalised name resolves. *)
Lemma library_name_not_normalised :
  fst (fst (getNameFromImportLibAndOrd "FOO.DLL" 7 sample_registry sample_world))
  = ""
  /\ opened (snd (getNameFromImportLibAndOrd "FOO.DLL" 7 sample_registry
                    sample_world)) = ["ords/FOO.DLL.ord"]
  /\ removeSuffix (cxx.transform_tolower "FOO.DLL") ".dll" = "foo"
  /\ fst (fst (getNameFromImportLibAndOrd "foo" 7 sample_registry sample_world))
     = "CreateWidget".
Proof. vm_compute. repeat split; reflexivity. Qed.

Lemma getPreferredName_minimum_witness :
  let alpha := {| _name := "alpha"; _type := SYMBOL_OTHER |} in
  let pref := getPreferredName ranked_names in
  Names_ok ranked_names
  /\ pref = {| _name := "zeta"; _type := CONFIG_FUNCTION |}
  /\ In pref (_names ranked_names)
  /\ (alpha = pref
      \/ eType_value (_type pref) < eType_value (_type alpha)
      \/ (_type pref = _type alpha
          /\ String.ltb (_name pref) (_name alpha) = true))
  /\ String.ltb (_name alpha) (_name pref) = true.
Proof.
  assert (Hok : Names_ok ranked_names) by (repeat constructor).
  destruct (getPreferredName_minimum ranked_names Hok) as [Hmin _].
  destruct (Hmin eq_refl) as [Hin Hall].
  split; [exact Hok|]. split; [reflexivity|]. split; [exact Hin|].
  split; [|reflexivity].
  apply Hall. right. left. reflexivity.
Defined.

Lemma addNames_first_writer_wins_witness :
  let '(p1, P1, w1) :=
    addNames verbatimPrefix "imp_" (Some 1%N) (Some sample_config) None
      (Some sample_image) (Some 1%N) ∅ sample_world in
  let '(p2, P2, _) :=
    addNames verbatimPrefix "imp_" (Some 1%N) (Some other_config) None
      (Some sample_image) (Some 2%N) P1 w1 in
  p2 = p1 /\ P2 = P1
  /\ (_names ∘ data_at 4096%N) <$> deref p2 P2
     = Some [ {| _name := "init"; _type := CONFIG_FUNCTION |} ].
Proof.
  generalize (proj2 (addNames_first_writer_wins verbatimPrefix "imp_" 1%N ∅
                       sample_config other_config None None
                       sample_image sample_image 1%N 2%N sample_world)).
  vm_compute. intros (H1 & H2 & _).
  split; [exact H1 | split; [exact H2 | reflexivity]].
Defined.

Lemma read_ord_file_drops_unterminated_line_witness :
  read_ord_file
    (cxx.stream_of (terminated ["7 CreateWidget"; "8 DestroyWidget"] +:+ "9 Last"))
  = {[ 7 := "CreateWidget"; 8 := "DestroyWidget" ]}.
Proof.
  destruct (read_ord_file_drops_unterminated_line
              ["7 CreateWidget"; "8 DestroyWidget"] "9 Last") as [H _].
  - repeat constructor.
  - reflexivity.
  - rewrite H. vm_compute. reflexivity.
Defined.

Lemma Names_addName_order_independent_witness :
  snd (Names_addName verbatimPrefix "sym_main" SYMBOL_FUNCTION
         (snd (Names_addName verbatimPrefix "dbg_main" DEBUG_FUNCTION
                 Names_default))) = sample_names
  /\ snd (Names_addName verbatimPrefix "dbg_main" DEBUG_FUNCTION
            (snd (Names_addName verbatimPrefix "sym_main" SYMBOL_FUNCTION
                    Names_default))) = sample_names.
Proof.
  rewrite (Names_addName_order_independent verbatimPrefix "sym_main" "dbg_main"
             SYMBOL_FUNCTION DEBUG_FUNCTION Names_default Names_default_ok).
  split; reflexivity.
Defined.

Lemma getPreferredNameForAddress_after_add_witness :
  let nc' :=
    snd (addNameForAddress verbatimPrefix 4096%N "init" CONFIG_FUNCTION
           sample_registry) in
  data_ok sample_registry
  /\ eType_value (_type (fst (getPreferredNameForAddress 4096%N nc')))
     <= eType_value CONFIG_FUNCTION
  /\ fst (getPreferredNameForAddress 4096%N nc')
     = {| _name := "init"; _type := CONFIG_FUNCTION |}
  /\ fst (getPreferredNameForAddress 8192%N nc') = Name_default.
Proof.
  assert (Hok : data_ok sample_registry).
  { intros a ns. simpl. rewrite lookup_empty. discriminate. }
  destruct (getPreferredNameForAddress_after_add verbatimPrefix 4096%N "init"
              CONFIG_FUNCTION sample_registry Hok eq_refl eq_refl)
    as (_ & _ & Hle & _).
  split; [exact Hok | split; [exact Hle | split; reflexivity]].
Defined.

Lemma read_ord_line_blank_witness :
  read_ord_line "   " {[ 7 := "CreateWidget" ]} = {[ 7 := "CreateWidget" ]}.
Proof. apply read_ord_line_blank. reflexivity. Defined.

(** * Further properties of the registry *)

(** ** What a call leaves alone *)

Lemma names_le_refl (nc : NameContainer) : names_le nc nc.
Proof. intros a n H. exact H. Qed.

Lemma names_le_trans (x y z : NameContainer) :
  names_le x y -> names_le y z -> names_le x z.
Proof. intros H1 H2 a n H. apply H2, H1, H. Qed.

Lemma same_env_refl (nc : NameContainer) : same_env nc nc.
Proof. repeat split. Qed.

Lemma same_env_trans (x y z : NameContainer) :
  same_env x y -> same_env y z -> same_env x z.
Proof.
  unfold same_env. intros (A1 & A2 & A3 & A4 & A5) (B1 & B2 & B3 & B4 & B5).
  repeat split; congruence.
Qed.

Lemma cache_le_refl (nc : NameContainer) : cache_le nc nc.
Proof. intros L m H. exact H. Qed.

Lemma cache_le_trans (x y z : NameContainer) :
  cache_le x y -> cache_le y z -> cache_le x z.
Proof. intros H1 H2 L m H. apply H2, H1, H. Qed.

Lemma fold_left_preorder {S X : Type} (R : S -> S -> Prop) (f : S -> X -> S)
    (l : list X) (s : S) :
  (forall s, R s s) -> (forall x y z, R x y -> R y z -> R x z) ->
  (forall s x, R s (f s x)) -> R s (fold_left f l s).
Proof.
  intros Hr Ht Hf. revert s. induction l as [|x l IH]; simpl; intros s.
  - apply Hr.
  - eapply Ht; [apply Hf|apply IH].
Qed.

Lemma fold_left_reaches {S X : Type} (P : S -> Prop) (f : S -> X -> S)
    (x : X) (l : list X) (s : S) :
  In x l -> (forall s, P (f s x)) -> (forall s y, P s -> P (f s y)) ->
  P (fold_left f l s).
Proof.
  intros Hin Hx Hkeep. revert s.
  induction l as [|y l IH]; simpl; intros s; [destruct Hin|].
  destruct Hin as [->|Hin].
  - apply fold_left_invariant; [exact Hkeep|apply Hx].
  - now apply IH.
Qed.

Lemma set_emplace_length (x : Name) (s : list Name) :
  length (fst (set_emplace x s))
  = (length s + if snd (set_emplace x s) then 1 else 0)%nat.
Proof.
  induction s as [|h r IH]; simpl; [reflexivity|].
  destruct (Name_lt x h); simpl; [lia|].
  destruct (Name_lt h x); simpl; [|lia].
  destruct (set_emplace x r) as [r' b]. simpl in *. lia.
Qed.

Section FrameProperties.

Variable norm : string -> string.

Lemma addNameForAddress_other (a b : N) (t : string) (p : eType)
    (nc : NameContainer) :
  b <> a ->
  _data (snd (addNameForAddress norm a t p nc)) !! b = _data nc !! b.
Proof.
  intros Hb. destruct (Address.isUndefined a || cxx.empty t) eqn:E.
  - now rewrite addNameForAddress_rejected_eq.
  - rewrite addNameForAddress_snd by exact E. simpl.
    now rewrite lookup_insert_ne.
Qed.

Lemma addNameForAddress_names_le (a : N) (t : string) (p : eType)
    (nc : NameContainer) :
  names_le nc (snd (addNameForAddress norm a t p nc)).
Proof.
  intros b n Hn. destruct (Address.isUndefined a || cxx.empty t) eqn:E.
  - now rewrite addNameForAddress_rejected_eq.
  - destruct (decide (b = a)) as [->|Hb].
    + rewrite addNameForAddress_data_at by exact E.
      unfold Names_addName. apply orb_false_iff in E as [_ ->]. simpl.
      apply set_emplace_In. now right.
    + unfold data_at in *. now rewrite addNameForAddress_other.
Qed.

Lemma addNameForAddress_env (a : N) (t : string) (p : eType)
    (nc : NameContainer) :
  same_env nc (snd (addNameForAddress norm a t p nc))
  /\ _dllOrds (snd (addNameForAddress norm a t p nc)) = _dllOrds nc.
Proof.
  destruct (Address.isUndefined a || cxx.empty t) eqn:E.
  - rewrite addNameForAddress_rejected_eq by exact E. repeat split.
  - rewrite addNameForAddress_snd by exact E. repeat split.
Qed.

Lemma addNameForAddress_has (a : N) (t : string) (p : eType)
    (nc : NameContainer) :
  Address.isUndefined a = false -> cxx.empty t = false ->
  In (Name_new norm t p)
     (_names (data_at a (snd (addNameForAddress norm a t p nc)))).
Proof.
  intros Ha Ht. rewrite addNameForAddress_data_at by (now rewrite Ha, Ht).
  unfold Names_addName. rewrite Ht. simpl. apply set_emplace_In. now left.
Qed.

(** (X8) [addNameForAddress] only adds: the collections of all other
    addresses are untouched, every name that was at an address is still
    there, the only name that can be new is the one constructed from the
    arguments, and the ordinal cache and the collaborators are left alone. *)
Theorem addNameForAddress_only_adds (a b : N) (t : string) (p : eType)
    (n : Name) (nc : NameContainer) :
  let nc' := snd (addNameForAddress norm a t p nc) in
  (b <> a -> _data nc' !! b = _data nc !! b)
  /\ (In n (_names (data_at b nc)) -> In n (_names (data_at b nc')))
  /\ (In n (_names (data_at a nc')) ->
      n = Name_new norm t p \/ In n (_names (data_at a nc)))
  /\ _dllOrds nc' = _dllOrds nc
  /\ same_env nc nc'.
Proof.
  cbv zeta. split; [apply addNameForAddress_other|].
  split; [apply addNameForAddress_names_le|].
  split; [|split; apply addNameForAddress_env].
  destruct (Address.isUndefined a || cxx.empty t) eqn:E.
  - rewrite addNameForAddress_rejected_eq by exact E. now right.
  - rewrite addNameForAddress_data_at by exact E.
    unfold Names_addName. apply orb_false_iff in E as [_ ->]. simpl.
    apply set_emplace_In.
Qed.

(** (X9) Adding a name to a collection makes it one element larger when the
    constructed name was not in it, and leaves its size when it was. *)
Theorem Names_addName_size (name : string) (type : eType) (ns : Names) :
  Names_ok ns -> cxx.empty name = false ->
  (In (Name_new norm name type) (_names ns) ->
     Names_size (snd (Names_addName norm name type ns)) = Names_size ns)
  /\ (~ In (Name_new norm name type) (_names ns) ->
     Names_size (snd (Names_addName norm name type ns)) = S (Names_size ns)).
Proof.
  intros Hok Hne. unfold Names_addName, Names_size. rewrite Hne. simpl.
  rewrite set_emplace_length.
  pose proof (set_emplace_inserted (Name_new norm name type) _ Hok) as Hflag.
  destruct (snd (set_emplace (Name_new norm name type) (_names ns))).
  - split; [intros Hin; exfalso; now apply (proj1 Hflag)|intros _; lia].
  - split; [intros _; lia|].
    intros Hn. apply Hflag in Hn. discriminate.
Qed.

End FrameProperties.

(** (X10) Asking for the names or the preferred name of an address changes
    no collection, but leaves the address in the table: a table that did not
    know the address is one entry larger afterwards.  Asking again changes
    nothing more. *)
Theorem getNamesForAddress_creates (a b : N) (nc : NameContainer) :
  let nc' := snd (getNamesForAddress a nc) in
  fst (getNamesForAddress a nc) = data_at a nc
  /\ fst (getPreferredNameForAddress a nc) = getPreferredName (data_at a nc)
  /\ snd (getPreferredNameForAddress a nc) = nc'
  /\ data_at b nc' = data_at b nc
  /\ _data nc' !! a = Some (data_at a nc)
  /\ (_data nc !! a = None ->
      fst (getNamesForAddress a nc) = Names_default
      /\ size (_data nc') = S (size (_data nc)))
  /\ (is_Some (_data nc !! a) -> _data nc' = _data nc)
  /\ getNamesForAddress a nc' = (data_at a nc, nc').
Proof.
  cbv zeta. unfold getNamesForAddress, getPreferredNameForAddress. simpl.
  assert (Hb : data_at b (with_data (<[a:=data_at a nc]> (_data nc)) nc)
               = data_at b nc).
  { unfold data_at at 1. simpl. destruct (decide (b = a)) as [->|Hb].
    - now rewrite lookup_insert_eq.
    - now rewrite lookup_insert_ne. }
  split; [reflexivity|]. split; [reflexivity|]. split; [reflexivity|].
  split; [exact Hb|]. split; [apply lookup_insert_eq|].
  split; [|split].
  - intros Hnone. split.
    + unfold data_at. now rewrite Hnone.
    + now rewrite map_size_insert_None.
  - intros [ns Hns]. apply insert_id. unfold data_at. now rewrite Hns.
  - unfold data_at at 1 3. simpl. rewrite lookup_insert_eq. simpl.
    unfold with_data. simpl. now rewrite insert_insert_eq.
Qed.

(** ** Population only adds *)

Lemma extends_refl (nc : NameContainer) : extends nc nc.
Proof.
  split; [apply names_le_refl|split; [apply same_env_refl|apply cache_le_refl]].
Qed.

Lemma extends_trans (x y z : NameContainer) :
  extends x y -> extends y z -> extends x z.
Proof.
  intros (A1 & A2 & A3) (B1 & B2 & B3).
  split; [eapply names_le_trans; eassumption|].
  split; [eapply same_env_trans; eassumption|eapply cache_le_trans; eassumption].
Qed.

Lemma getNameFromImportLibAndOrd_extends (L : string) (o : Z)
    (nc : NameContainer) (w : World) :
  extends nc (snd (fst (getNameFromImportLibAndOrd L o nc w)))
  /\ files (snd (getNameFromImportLibAndOrd L o nc w)) = files w.
Proof.
  destruct (_dllOrds nc !! L) as [m|] eqn:Hc.
  - rewrite (getNameFromImportLibAndOrd_hit L o m) by exact Hc.
    split; [apply extends_refl|reflexivity].
  - destruct (files w !! ordPath nc L) as [content|] eqn:Hf.
    + rewrite (getNameFromImportLibAndOrd_present L content) by assumption.
      simpl. split; [|reflexivity]. split; [|split].
      * intros a n Hn. exact Hn.
      * repeat split.
      * intros L' m' Hm'. simpl. rewrite lookup_insert_ne; [exact Hm'|].
        intros <-. congruence.
    + rewrite getNameFromImportLibAndOrd_absent by assumption.
      split; [apply extends_refl|reflexivity].
Qed.

Section PopulationOnlyAdds.

Variable norm : string -> string.
Variable prefix : string.

Lemma addNameForAddress_extends (a : N) (t : string) (p : eType)
    (nc : NameContainer) :
  extends nc (snd (addNameForAddress norm a t p nc)).
Proof.
  split; [apply addNameForAddress_names_le|].
  destruct (addNameForAddress_env norm a t p nc) as [He Hc].
  split; [exact He|]. intros L m. now rewrite Hc.
Qed.

Lemma addAll_extends (type : eType) (l : list (N * string)) (nc : NameContainer) :
  extends nc (addAll norm type l nc).
Proof.
  unfold addAll. apply fold_left_preorder;
    [apply extends_refl|apply extends_trans|].
  intros s x. apply addNameForAddress_extends.
Qed.

Lemma initFromConfig_extends (nc : NameContainer) :
  extends nc (initFromConfig norm nc).
Proof.
  unfold initFromConfig.
  eapply extends_trans; [apply addNameForAddress_extends|].
  eapply extends_trans; [apply addAll_extends|].
  eapply extends_trans; [apply addAll_extends|apply addAll_extends].
Qed.

Lemma initFromDebug_extends (nc : NameContainer) :
  extends nc (initFromDebug norm nc).
Proof.
  unfold initFromDebug. destruct (_debug nc) as [d|]; [|apply extends_refl].
  eapply extends_trans; [apply addAll_extends|].
  apply fold_left_preorder; [apply extends_refl|apply extends_trans|].
  intros s [[addr|] name]; simpl;
    [apply addNameForAddress_extends|apply extends_refl].
Qed.

Lemma initFromImport_extends (impTbl : ImportTable) (imp : Import)
    (st : NameContainer * World) :
  extends (fst st) (fst (initFromImport norm prefix impTbl imp st))
  /\ files (snd (initFromImport norm prefix impTbl imp st)) = files (snd st).
Proof.
  destruct st as [nc w]. simpl. unfold initFromImport.
  destruct (cxx.empty (imp_getName imp)).
  - destruct (getOrdinalNumber imp) as [ord|].
    + pose proof (getNameFromImportLibAndOrd_extends
        (removeSuffix (cxx.transform_tolower
           (getLibrary impTbl (getLibraryIndex imp))) ".dll")
        (cxx.to_int (Z.of_N ord)) nc w) as [He Hf].
      destruct (getNameFromImportLibAndOrd _ _ nc w) as [[name nc'] w'].
      simpl in He, Hf.
      destruct (cxx.empty name && true); simpl; (split; [|exact Hf]);
        (eapply extends_trans; [exact He|apply addNameForAddress_extends]).
    + destruct (cxx.empty (imp_getName imp) && false); simpl;
        (split; [apply addNameForAddress_extends|reflexivity]).
  - destruct (cxx.empty (imp_getName imp) && false); simpl;
      (split; [apply addNameForAddress_extends|reflexivity]).
Qed.

(** The state after the loop over the import table. *)
Lemma initFromImports_extends (impTbl : ImportTable) (l : list Import)
    (st : NameContainer * World) :
  extends (fst st)
    (fst (fold_left (fun st imp => initFromImport norm prefix impTbl imp st) l st))
  /\ files (snd (fold_left (fun st imp => initFromImport norm prefix impTbl imp st) l st))
     = files (snd st).
Proof.
  apply (fold_left_preorder
           (fun s s' => extends (fst s) (fst s') /\ files (snd s') = files (snd s))).
  - intros s. split; [apply extends_refl|reflexivity].
  - intros x y z [A1 A2] [B1 B2]. split; [eapply extends_trans; eassumption|congruence].
  - intros s x. apply initFromImport_extends.
Qed.

Lemma initFromImage_stages (nc : NameContainer) (w : World) :
  initFromImage norm prefix nc w
  = (addAll norm ENTRY_POINT (getSegments (_image nc))
       (afterEntryPoint norm (_image nc)
          (afterSymbols norm (_image nc)
             (afterExports norm (_image nc) (fst (afterImports norm prefix nc w))))),
     snd (afterImports norm prefix nc w)).
Proof.
  unfold initFromImage, afterImports, afterExports, afterSymbols, afterEntryPoint.
  destruct (match getImportTable (_image nc) with Some _ => _ | None => _ end)
    as [nc1 w1].
  reflexivity.
Qed.

Lemma afterImports_extends (nc : NameContainer) (w : World) :
  extends nc (fst (afterImports norm prefix nc w))
  /\ files (snd (afterImports norm prefix nc w)) = files w.
Proof.
  unfold afterImports. destruct (getImportTable (_image nc)) as [impTbl|].
  - apply (initFromImports_extends impTbl (imports impTbl) (nc, w)).
  - split; [apply extends_refl|reflexivity].
Qed.

Lemma afterExports_extends (i : FileImage) (nc : NameContainer) :
  extends nc (afterExports norm i nc).
Proof.
  unfold afterExports. destruct (getExportTable i);
    [apply addAll_extends|apply extends_refl].
Qed.

Lemma afterSymbols_extends (i : FileImage) (nc : NameContainer) :
  extends nc (afterSymbols norm i nc).
Proof.
  unfold afterSymbols.
  apply fold_left_preorder; [apply extends_refl|apply extends_trans|].
  intros s x. destruct (getRealAddress x);
    [apply addNameForAddress_extends|apply extends_refl].
Qed.

Lemma afterEntryPoint_extends (i : FileImage) (nc : NameContainer) :
  extends nc (afterEntryPoint norm i nc).
Proof.
  unfold afterEntryPoint. destruct (getEpAddress i);
    [apply addNameForAddress_extends|apply extends_refl].
Qed.

Lemma initFromImage_extends (nc : NameContainer) (w : World) :
  extends nc (fst (initFromImage norm prefix nc w))
  /\ files (snd (initFromImage norm prefix nc w)) = files w.
Proof.
  rewrite initFromImage_stages. simpl.
  split; [|apply afterImports_extends].
  eapply extends_trans; [apply afterImports_extends|].
  eapply extends_trans; [apply afterExports_extends|].
  eapply extends_trans; [apply afterSymbols_extends|].
  eapply extends_trans; [apply afterEntryPoint_extends|apply addAll_extends].
Qed.

End PopulationOnlyAdds.

(** ** What a constructed registry holds *)

Lemma pretty_N_go_nonempty (x : N) (s : string) :
  s <> "" -> pretty_N_go x s <> "".
Proof.
  revert s. induction (N.lt_wf_0 x) as [x _ IH]. intros s Hs.
  destruct (N.eq_dec x 0%N) as [->|Hx].
  - now rewrite pretty_N_go_0.
  - rewrite pretty_N_go_step by lia. apply IH; [|discriminate].
    apply N.div_lt; lia.
Qed.

Lemma to_string_nonempty (n : N) : cxx.to_string n <> "".
Proof.
  unfold cxx.to_string, pretty, pretty_N.
  destruct (decide (n = 0%N)); [discriminate|].
  rewrite pretty_N_go_step by lia. apply pretty_N_go_nonempty. discriminate.
Qed.

Lemma empty_append_r (a b : string) : b <> "" -> cxx.empty (a +:+ b) = false.
Proof.
  intros Hb. destruct a as [|c a]; [|reflexivity].
  destruct b; [congruence|reflexivity].
Qed.

Lemma Name_valid_type (n : Name) :
  Name_valid n = negb (eType_value (_type n) =? 0).
Proof. reflexivity. Qed.

Lemma symbolType_valid (u : UsageType) :
  negb (eType_value (symbolType u) =? 0) = true.
Proof. now destruct u. Qed.

Section Contents.

Variable norm : string -> string.
Variable prefix : string.

Lemma extends_has (nc nc' : NameContainer) (a : N) (n : Name) :
  extends nc nc' -> In n (_names (data_at a nc)) -> In n (_names (data_at a nc')).
Proof. intros [H _]. apply H. Qed.

Lemma addAll_has (type : eType) (l : list (N * string)) (nc : NameContainer)
    (a : N) (t : string) :
  Address.isUndefined a = false -> cxx.empty t = false -> In (a, t) l ->
  In (Name_new norm t type) (_names (data_at a (addAll norm type l nc))).
Proof.
  intros Ha Ht Hin. unfold addAll.
  apply (fold_left_reaches
           (fun s => In (Name_new norm t type) (_names (data_at a s)))
           _ (a, t)); [exact Hin| |].
  - intros s. simpl. now apply addNameForAddress_has.
  - intros s y. apply addNameForAddress_names_le.
Qed.

Lemma addNameForAddress_In_inv (a b : N) (t : string) (p : eType) (n : Name)
    (nc : NameContainer) :
  In n (_names (data_at b (snd (addNameForAddress norm a t p nc)))) ->
  n = Name_new norm t p \/ In n (_names (data_at b nc)).
Proof.
  destruct (Address.isUndefined a || cxx.empty t) eqn:E.
  - rewrite addNameForAddress_rejected_eq by exact E. now right.
  - destruct (decide (b = a)) as [->|Hb].
    + rewrite addNameForAddress_data_at by exact E.
      unfold Names_addName. apply orb_false_iff in E as [_ ->]. simpl.
      apply set_emplace_In.
    + unfold data_at. rewrite addNameForAddress_other by exact Hb. now right.
Qed.

Lemma addNameForAddress_types_valid (a : N) (t : string) (p : eType)
    (nc : NameContainer) :
  negb (eType_value p =? 0) = true ->
  types_valid nc -> types_valid (snd (addNameForAddress norm a t p nc)).
Proof.
  intros Hp Hv b n Hn. apply addNameForAddress_In_inv in Hn as [->|Hn].
  - exact Hp.
  - now apply (Hv b).
Qed.

Lemma addAll_types_valid (type : eType) (l : list (N * string))
    (nc : NameContainer) :
  negb (eType_value type =? 0) = true ->
  types_valid nc -> types_valid (addAll norm type l nc).
Proof.
  intros Hp. unfold addAll. apply fold_left_invariant.
  intros s x. now apply addNameForAddress_types_valid.
Qed.

Lemma types_valid_data (nc nc' : NameContainer) :
  _data nc' = _data nc -> types_valid nc -> types_valid nc'.
Proof. intros E Hv a n. unfold data_at. rewrite E. apply Hv. Qed.

Lemma initFromImport_types_valid (impTbl : ImportTable) (imp : Import)
    (st : NameContainer * World) :
  types_valid (fst st) ->
  types_valid (fst (initFromImport norm prefix impTbl imp st)).
Proof.
  destruct st as [nc w]. simpl. intros H. unfold initFromImport.
  destruct (cxx.empty (imp_getName imp)).
  - destruct (getOrdinalNumber imp) as [ord|].
    + pose proof (getNameFromImportLibAndOrd_data
        (removeSuffix (cxx.transform_tolower
           (getLibrary impTbl (getLibraryIndex imp))) ".dll")
        (cxx.to_int (Z.of_N ord)) nc w) as Hd.
      destruct (getNameFromImportLibAndOrd _ _ nc w) as [[name nc'] w'].
      simpl in Hd. apply (types_valid_data nc nc' Hd) in H.
      destruct (cxx.empty name && true); simpl;
        now apply addNameForAddress_types_valid.
    + destruct (cxx.empty (imp_getName imp) && false); simpl;
        now apply addNameForAddress_types_valid.
  - destruct (cxx.empty (imp_getName imp) && false); simpl;
      now apply addNameForAddress_types_valid.
Qed.

Lemma NameContainer_new_types_valid (m : N) (c : Config)
    (d : option DebugFormat) (i : FileImage) (dm : N) (w : World) :
  types_valid (fst (NameContainer_new norm prefix m c d i dm w)).
Proof.
  unfold NameContainer_new. rewrite initFromImage_stages. simpl.
  apply addAll_types_valid; [reflexivity|].
  unfold afterEntryPoint.
  assert (H0 : types_valid
    {| _module := m; _config := c; _debug := d; _image := i;
       _demangler := dm; _data := ∅; _dllOrds := ∅ |}).
  { intros a n. unfold data_at. simpl. rewrite lookup_empty. intros []. }
  assert (H1 : types_valid (initFromConfig norm
    {| _module := m; _config := c; _debug := d; _image := i;
       _demangler := dm; _data := ∅; _dllOrds := ∅ |})).
  { unfold initFromConfig. repeat (apply addAll_types_valid; [reflexivity|]).
    now apply addNameForAddress_types_valid. }
  set (nc1 := initFromConfig norm _) in *.
  assert (H2 : types_valid (initFromDebug norm nc1)).
  { unfold initFromDebug. destruct (_debug nc1); [|exact H1].
    apply fold_left_invariant; [|now apply addAll_types_valid].
    intros s [[addr|] name] Hs; simpl;
      [now apply addNameForAddress_types_valid|exact Hs]. }
  set (nc2 := initFromDebug norm nc1) in *.
  assert (H3 : types_valid (fst (afterImports norm prefix nc2 w))).
  { unfold afterImports. destruct (getImportTable (_image nc2)); [|exact H2].
    apply (fold_left_invariant (fun st => types_valid (fst st))); [|exact H2].
    intros s x. apply initFromImport_types_valid. }
  assert (H4 : types_valid
    (afterExports norm (_image nc2) (fst (afterImports norm prefix nc2 w)))).
  { unfold afterExports. destruct (getExportTable (_image nc2)); [|exact H3].
    now apply addAll_types_valid. }
  assert (H5 : types_valid (afterSymbols norm (_image nc2)
    (afterExports norm (_image nc2) (fst (afterImports norm prefix nc2 w))))).
  { unfold afterSymbols. apply fold_left_invariant; [|exact H4].
    intros s x Hs. destruct (getRealAddress x); [|exact Hs].
    apply addNameForAddress_types_valid; [apply symbolType_valid|exact Hs]. }
  destruct (getEpAddress (_image nc2)); [|exact H5].
  now apply addNameForAddress_types_valid.
Qed.

(** (X11) In a registry made by the constructor every stored name is valid
    (its type is not [INVALID]); hence the preferred name of an address
    converts to [true] exactly when the address has a name. *)
Theorem preferred_valid_iff_named (m : N) (c : Config) (d : option DebugFormat)
    (i : FileImage) (dm : N) (w : World) (a : N) :
  let nc := fst (NameContainer_new norm prefix m c d i dm w) in
  Name_valid (fst (getPreferredNameForAddress a nc))
  = negb (Names_empty (data_at a nc))
  /\ (forall n, In n (_names (data_at a nc)) -> Name_valid n = true).
Proof.
  cbv zeta.
  pose proof (NameContainer_new_types_valid m c d i dm w a) as Hv.
  split; [|exact Hv].
  unfold getPreferredNameForAddress, getPreferredName, Names_empty. simpl.
  destruct (_names (data_at a (fst (NameContainer_new norm prefix m c d i dm w))))
    as [|h r]; [reflexivity|].
  simpl. apply Hv. now left.
Qed.

End Contents.

Section Sources.

Variable norm : string -> string.
Variable prefix : string.

Lemma initFromImport_named (impTbl : ImportTable) (imp : Import)
    (nc : NameContainer) (w : World) :
  cxx.empty (imp_getName imp) = false ->
  initFromImport norm prefix impTbl imp (nc, w)
  = (snd (addNameForAddress norm (imp_getAddress imp) (imp_getName imp)
            IMPORT nc), w).
Proof.
  unfold initFromImport. intros H.
  destruct (cxx.empty (imp_getName imp)); [discriminate|].
  now rewrite andb_false_r.
Qed.

Lemma initFromImport_by_ordinal (impTbl : ImportTable) (imp : Import) (ord : N)
    (nc : NameContainer) (w : World) :
  cxx.empty (imp_getName imp) = true -> getOrdinalNumber imp = Some ord ->
  initFromImport norm prefix impTbl imp (nc, w)
  = let '(name, nc', w') :=
      getNameFromImportLibAndOrd
        (removeSuffix (cxx.transform_tolower
           (getLibrary impTbl (getLibraryIndex imp))) ".dll")
        (cxx.to_int (Z.of_N ord)) nc w in
    if cxx.empty name
    then (snd (addNameForAddress norm (imp_getAddress imp)
                 (prefix +:+ cxx.to_string ord) IMPORT_GENERATED nc'), w')
    else (snd (addNameForAddress norm (imp_getAddress imp) name IMPORT nc'), w').
Proof.
  unfold initFromImport. intros H ->.
  destruct (cxx.empty (imp_getName imp)); [|discriminate].
  destruct (getNameFromImportLibAndOrd _ _ nc w) as [[name nc'] w'].
  now rewrite andb_true_r.
Qed.

(** (X12) Every declaration of the configuration and of the debug
    information that has a defined address and a name is in the constructed
    registry, at its address, under the type of its source; so is the entry
    point of the configuration. *)
Theorem NameContainer_new_has_declared (m : N) (c : Config)
    (d : option DebugFormat) (i : FileImage) (dm : N) (w : World)
    (a : N) (t : string) :
  Address.isUndefined a = false -> cxx.empty t = false ->
  let nc := fst (NameContainer_new norm prefix m c d i dm w) in
  let has name type := In (Name_new norm name type) (_names (data_at a nc)) in
  (getEntryPoint c = a -> has entryPointName CONFIG_ENTRY_POINT)
  /\ (In (a, t) (functions c) -> has t CONFIG_FUNCTION)
  /\ (In (a, t) (globals c) -> has t CONFIG_GLOBAL)
  /\ (In (a, t) (segments c) -> has t CONFIG_SEGMENT)
  /\ (forall dbg, d = Some dbg ->
        (In (a, t) (debug_functions dbg) -> has t DEBUG_FUNCTION)
        /\ (In (Some a, t) (debug_globals dbg) -> has t DEBUG_GLOBAL)).
Proof.
  intros Ha Ht. cbv zeta. unfold NameContainer_new.
  set (nc0 := {| _module := m; _config := c; _debug := d; _image := i;
                 _demangler := dm; _data := ∅; _dllOrds := ∅ |}).
  assert (Hlift1 : forall n,
    In n (_names (data_at a (initFromConfig norm nc0))) ->
    In n (_names (data_at a
      (fst (initFromImage norm prefix (initFromDebug norm (initFromConfig norm nc0)) w))))).
  { intros n Hn. eapply extends_has; [apply initFromImage_extends|].
    eapply extends_has; [apply initFromDebug_extends|exact Hn]. }
  assert (Hlift2 : forall n,
    In n (_names (data_at a (initFromDebug norm (initFromConfig norm nc0)))) ->
    In n (_names (data_at a
      (fst (initFromImage norm prefix (initFromDebug norm (initFromConfig norm nc0)) w))))).
  { intros n Hn. eapply extends_has; [apply initFromImage_extends|exact Hn]. }
  split; [|split; [|split; [|split]]].
  - intros He. apply Hlift1. unfold initFromConfig.
    do 3 (eapply extends_has; [apply addAll_extends|]).
    simpl. rewrite He. now apply addNameForAddress_has.
  - intros Hin. apply Hlift1. unfold initFromConfig.
    do 2 (eapply extends_has; [apply addAll_extends|]).
    now apply addAll_has.
  - intros Hin. apply Hlift1. unfold initFromConfig.
    eapply extends_has; [apply addAll_extends|]. now apply addAll_has.
  - intros Hin. apply Hlift1. unfold initFromConfig. now apply addAll_has.
  - intros dbg ->.
    assert (Hd : _debug (initFromConfig norm nc0) = Some dbg).
    { now destruct (initFromConfig_extends norm nc0) as (_ & (_ & _ & -> & _) & _). }
    split; intros Hin; apply Hlift2; unfold initFromDebug; rewrite Hd.
    + eapply (fold_left_preorder names_le);
        [apply names_le_refl|apply names_le_trans| |now apply addAll_has].
      intros s [[addr|] name]; simpl;
        [apply addNameForAddress_names_le|apply names_le_refl].
    + apply (fold_left_reaches
               (fun s => In (Name_new norm t DEBUG_GLOBAL) (_names (data_at a s)))
               _ (Some a, t)); [exact Hin| |].
      * intros s. simpl. now apply addNameForAddress_has.
      * intros s [[addr|] name] Hs; simpl; [|exact Hs].
        now apply addNameForAddress_names_le.
Qed.

(** (X13) Every entry of the image that has a defined address and a name is
    in the constructed registry at its address: a named import as [IMPORT],
    an export as [EXPORT], a symbol with a real address under the type of its
    usage, and the entry point and every segment as [ENTRY_POINT]. *)
Theorem NameContainer_new_has_image (m : N) (c : Config)
    (d : option DebugFormat) (i : FileImage) (dm : N) (w : World)
    (a : N) (t : string) :
  Address.isUndefined a = false -> cxx.empty t = false ->
  let nc := fst (NameContainer_new norm prefix m c d i dm w) in
  let has name type := In (Name_new norm name type) (_names (data_at a nc)) in
  (forall tbl imp, getImportTable i = Some tbl -> In imp (imports tbl) ->
     imp_getAddress imp = a -> imp_getName imp = t -> has t IMPORT)
  /\ (forall ex, getExportTable i = Some ex -> In (a, t) ex -> has t EXPORT)
  /\ (forall tbl s, In tbl (getSymbolTables i) -> In s tbl ->
        getRealAddress s = Some a -> sym_getName s = t ->
        has t (symbolType (getUsageType s)))
  /\ (getEpAddress i = Some a -> has entryPointName ENTRY_POINT)
  /\ (In (a, t) (getSegments i) -> has t ENTRY_POINT).
Proof.
  intros Ha Ht. cbv zeta. unfold NameContainer_new.
  set (nc0 := {| _module := m; _config := c; _debug := d; _image := i;
                 _demangler := dm; _data := ∅; _dllOrds := ∅ |}).
  set (nc2 := initFromDebug norm (initFromConfig norm nc0)).
  assert (Hi : _image nc2 = i).
  { assert (He : extends nc0 nc2).
    { eapply extends_trans; [apply initFromConfig_extends|apply initFromDebug_extends]. }
    now destruct He as (_ & (_ & _ & _ & -> & _) & _). }
  rewrite initFromImage_stages. simpl. rewrite Hi.
  split; [|split; [|split; [|split]]].
  - intros tbl imp Htbl Himp Haddr Hname.
    eapply extends_has; [apply addAll_extends|].
    eapply extends_has; [apply afterEntryPoint_extends|].
    eapply extends_has; [apply afterSymbols_extends|].
    eapply extends_has; [apply afterExports_extends|].
    unfold afterImports. rewrite Hi, Htbl.
    apply (fold_left_reaches
             (fun st => In (Name_new norm t IMPORT) (_names (data_at a (fst st))))
             _ imp); [exact Himp| |].
    + intros [s w']. rewrite initFromImport_named by (now rewrite Hname).
      simpl. rewrite Haddr, Hname. now apply addNameForAddress_has.
    + intros s y Hs.
      now apply (proj1 (proj1 (initFromImport_extends norm prefix tbl y s))).
  - intros ex Hex Hin.
    eapply extends_has; [apply addAll_extends|].
    eapply extends_has; [apply afterEntryPoint_extends|].
    eapply extends_has; [apply afterSymbols_extends|].
    unfold afterExports. rewrite Hex. now apply addAll_has.
  - intros tbl s Htbl Hs Hreal Hname.
    eapply extends_has; [apply addAll_extends|].
    eapply extends_has; [apply afterEntryPoint_extends|].
    unfold afterSymbols.
    apply (fold_left_reaches
             (fun st => In (Name_new norm t (symbolType (getUsageType s)))
                          (_names (data_at a st))) _ s).
    + apply in_concat. eauto.
    + intros st. rewrite Hreal, Hname. now apply addNameForAddress_has.
    + intros st y Hst. destruct (getRealAddress y); [|exact Hst].
      now apply addNameForAddress_names_le.
  - intros Hep. eapply extends_has; [apply addAll_extends|].
    unfold afterEntryPoint. rewrite Hep. now apply addNameForAddress_has.
  - intros Hin. now apply addAll_has.
Qed.

(** (X15) The import loop opens no file for an import that has a name, and
    for an import with neither name nor ordinal it changes nothing at all;
    for an import known by ordinal only it opens at most the one file of the
    import's library, named in lower case without a trailing ".dll". *)
Theorem initFromImport_files (impTbl : ImportTable) (addr : N) (name : string)
    (idx : nat) (o : option N) (ord : N) (nc : NameContainer) (w : World) :
  let imp n o := {| imp_getAddress := addr; imp_getName := n;
                    getLibraryIndex := idx; getOrdinalNumber := o |} in
  let libN := removeSuffix (cxx.transform_tolower (getLibrary impTbl idx)) ".dll" in
  (cxx.empty name = false ->
     snd (initFromImport norm prefix impTbl (imp name o) (nc, w)) = w)
  /\ initFromImport norm prefix impTbl (imp "" None) (nc, w) = (nc, w)
  /\ (opened (snd (initFromImport norm prefix impTbl (imp "" (Some ord)) (nc, w)))
      = opened w
      \/ opened (snd (initFromImport norm prefix impTbl (imp "" (Some ord)) (nc, w)))
         = (opened w ++ [ordPath nc libN])%list).
Proof.
  cbv zeta. split; [|split].
  - intros Hn. now rewrite initFromImport_named.
  - unfold initFromImport. simpl.
    rewrite addNameForAddress_rejected_eq by apply orb_true_r. reflexivity.
  - rewrite (initFromImport_by_ordinal _ _ ord) by reflexivity. simpl.
    pose proof (getNameFromImportLibAndOrd_opened
      (removeSuffix (cxx.transform_tolower (getLibrary impTbl idx)) ".dll")
      (cxx.to_int (Z.of_N ord)) nc w) as Ho.
    destruct (getNameFromImportLibAndOrd _ _ nc w) as [[r nc'] w'].
    simpl in Ho.
    assert (E : opened (snd (if cxx.empty r
        then (snd (addNameForAddress norm addr (prefix +:+ cxx.to_string ord)
                     IMPORT_GENERATED nc'), w')
        else (snd (addNameForAddress norm addr r IMPORT nc'), w'))) = opened w')
      by now destruct (cxx.empty r).
    rewrite E, Ho. destruct (_dllOrds nc !! _); [left|right]; [|reflexivity].
    apply app_nil_r.
Qed.

End Sources.

(** ** The provider's table *)

Section Provider.

Variable norm : string -> string.
Variable prefix : string.

Lemma getNames_Some (m : N) (P : gmap N NameContainer) :
  getNames (Some m) P = match P !! m with Some _ => Some m | None => None end.
Proof.
  unfold getNames. destruct (P !! m) eqn:E.
  - rewrite decide_True; eauto.
  - rewrite decide_False; [reflexivity|]. intros [x Hx]. discriminate.
Qed.

(** (X16) After a successful [addNames] for a module, [getNames] for that
    module returns the pointer [addNames] returned (and reports success), the
    answers for every other module are as before, and a null module is never
    found.  [getNames] finds exactly the modules that have an entry, so after
    [clear] it finds none, and the next [addNames] stores the registry it
    constructs. *)
Theorem provider_lookup (m m' : N) (c : Config) (d : option DebugFormat)
    (i : FileImage) (dm : N) (P : gmap N NameContainer) (w : World) :
  let '(p, P', _) :=
    addNames norm prefix (Some m) (Some c) d (Some i) (Some dm) P w in
  getNames (Some m) P' = p
  /\ getNames_out (Some m) P' = (true, p)
  /\ (m' <> m -> getNames (Some m') P' = getNames (Some m') P)
  /\ getNames None P' = None
  /\ (getNames (Some m') P = None <-> P !! m' = None)
  /\ getNames (Some m') (NamesProvider_clear P') = None
  /\ deref (fst (fst (addNames norm prefix (Some m) (Some c) d (Some i) (Some dm)
                        (NamesProvider_clear P') w)))
           (snd (fst (addNames norm prefix (Some m) (Some c) d (Some i) (Some dm)
                        (NamesProvider_clear P') w)))
     = Some (fst (NameContainer_new norm prefix m c d i dm w)).
Proof.
  unfold addNames, NamesProvider_clear.
  destruct (NameContainer_new norm prefix m c d i dm w) as [nc w'] eqn:Enew.
  assert (Hm : getNames (Some m) (map_emplace m nc P) = Some m).
  { rewrite getNames_Some, map_emplace_lookup. reflexivity. }
  split; [exact Hm|]. split; [unfold getNames_out; now rewrite Hm|].
  split; [|split; [reflexivity|split; [|split]]].
  - intros Hne. rewrite !getNames_Some. unfold map_emplace.
    destruct (P !! m); [reflexivity|]. now rewrite lookup_insert_ne.
  - rewrite getNames_Some. destruct (P !! m'); split; congruence.
  - rewrite getNames_Some. now rewrite lookup_empty.
  - simpl. rewrite map_emplace_lookup. now rewrite lookup_empty.
Qed.

End Provider.

(** ** Lines of an ordinal file *)

Lemma isdigit_not_space (c : ascii) : cxx.isdigit c = true -> cxx.isspace c = false.
Proof.
  unfold cxx.isdigit, cxx.isspace. cbv zeta.
  rewrite andb_true_iff, !N.leb_le. intros [H1 H2].
  apply orb_false_iff. split.
  - apply N.eqb_neq. lia.
  - apply andb_false_iff. right. apply N.leb_gt. lia.
Qed.

Lemma isdigit_not_sign (c : ascii) :
  cxx.isdigit c = true -> Ascii.eqb c "-" = false /\ Ascii.eqb c "+" = false.
Proof.
  intros H. split; apply Ascii.eqb_neq; intros ->; discriminate H.
Qed.

Lemma isdigit_value (c : ascii) :
  cxx.isdigit c = true -> 0 <= Z.of_N (N_of_ascii c) - 48 <= 9.
Proof.
  unfold cxx.isdigit. cbv zeta. rewrite andb_true_iff, !N.leb_le. lia.
Qed.

Lemma decimal_nonneg (ds : string) (acc : Z) :
  all_digits ds = true -> 0 <= acc -> 0 <= cxx.decimal acc ds.
Proof.
  revert acc. induction ds as [|c ds IH]; simpl; intros acc Hd Hacc; [exact Hacc|].
  apply andb_true_iff in Hd as [Hc Hd]. apply IH; [exact Hd|].
  pose proof (isdigit_value c Hc). lia.
Qed.

Lemma span_digits_app (ds rest : string) :
  all_digits ds = true ->
  match rest with EmptyString => true | String c _ => negb (cxx.isdigit c) end = true ->
  cxx.span_digits (ds +:+ rest) = (ds, rest).
Proof.
  intros Hd Hr. induction ds as [|c ds IH].
  - change ("" +:+ rest) with rest. destruct rest as [|c r]; [reflexivity|].
    simpl. apply negb_true_iff in Hr. now rewrite Hr.
  - simpl in Hd. apply andb_true_iff in Hd as [Hc Hd].
    change (String c ds +:+ rest) with (String c (ds +:+ rest)).
    simpl. rewrite Hc, IH by exact Hd. reflexivity.
Qed.

Lemma span_nonspace_app (name tail : string) :
  no_space name = true ->
  match tail with EmptyString => true | String c _ => cxx.isspace c end = true ->
  cxx.span_nonspace (name +:+ tail) = (name, tail).
Proof.
  intros Hn Ht. induction name as [|c name IH].
  - change ("" +:+ tail) with tail. destruct tail as [|c r]; [reflexivity|].
    simpl. now rewrite Ht.
  - simpl in Hn. apply andb_true_iff in Hn as [Hc Hn].
    apply negb_true_iff in Hc.
    change (String c name +:+ tail) with (String c (name +:+ tail)).
    simpl. rewrite Hc, IH by exact Hn. reflexivity.
Qed.

Lemma read_ord_line_digits_name (ds name tail : string) (ordMap : ImportOrdMap) :
  all_digits ds = true -> cxx.empty ds = false ->
  cxx.decimal 0 ds <= cxx.INT_MAX ->
  no_space name = true -> cxx.empty name = false ->
  match tail with EmptyString => true | String c _ => cxx.isspace c end = true ->
  read_ord_line (ds +:+ " " +:+ name +:+ tail) ordMap
  = <[cxx.decimal 0 ds := name]> ordMap.
Proof.
  intros Hd Hde Hmax Hn Hne Ht.
  pose proof (decimal_nonneg ds 0 Hd (Z.le_refl 0)) as Hpos.
  destruct ds as [|c ds]; [discriminate|]. clear Hde.
  assert (Hc : cxx.isdigit c = true) by (simpl in Hd; now apply andb_true_iff in Hd).
  destruct (isdigit_not_sign c Hc) as [Hminus Hplus].
  destruct name as [|x name]; [discriminate|]. clear Hne.
  assert (Hx : cxx.isspace x = false).
  { simpl in Hn. apply andb_true_iff in Hn as [Hx _]. now apply negb_true_iff. }
  unfold read_ord_line, cxx.extract_int, cxx.sentry, cxx.num_get_long.
  change (String c ds +:+ " " +:+ String x name +:+ tail)
    with (String c (ds +:+ " " +:+ String x name +:+ tail)).
  cbn [cxx.stream_of cxx.good cxx.failbit cxx.eofbit cxx.rdbuf negb andb cxx.skipws].
  rewrite (isdigit_not_space c Hc). cbn [cxx.rdbuf]. rewrite Hminus, Hplus.
  change (String c (ds +:+ " " +:+ String x name +:+ tail))
    with (String c ds +:+ " " +:+ String x name +:+ tail).
  rewrite (span_digits_app (String c ds) (" " +:+ String x name +:+ tail) Hd eq_refl).
  cbn [cxx.empty].
  replace (cxx.decimal 0 (String c ds) <? cxx.LONG_MIN) with false
    by (symmetry; apply Z.ltb_ge; unfold cxx.LONG_MIN; lia).
  replace (cxx.LONG_MAX <? cxx.decimal 0 (String c ds)) with false
    by (symmetry; apply Z.ltb_ge; unfold cxx.LONG_MAX, cxx.INT_MAX in *; lia).
  replace (cxx.decimal 0 (String c ds) <? cxx.INT_MIN) with false
    by (symmetry; apply Z.ltb_ge; unfold cxx.INT_MIN; lia).
  replace (cxx.INT_MAX <? cxx.decimal 0 (String c ds)) with false
    by (symmetry; apply Z.ltb_ge; lia).
  unfold cxx.extract_string, cxx.sentry.
  change (" " +:+ String x name +:+ tail)
    with (String " " (String x (name +:+ tail))).
  cbn [cxx.empty cxx.good cxx.failbit cxx.eofbit cxx.rdbuf negb andb].
  change (cxx.skipws (String " " (String x (name +:+ tail))))
    with (cxx.skipws (String x (name +:+ tail))).
  cbn [cxx.skipws]. rewrite Hx. cbn [cxx.rdbuf].
  change (String x (name +:+ tail)) with (String x name +:+ tail).
  rewrite (span_nonspace_app (String x name) tail Hn Ht).
  apply Z.leb_le in Hpos. now rewrite Hpos.
Qed.

(** (X17) A line made of decimal digits whose value an [int] can hold, a
    space, and a name without white space declares that ordinal with that
    name: afterwards the ordinal maps to the name, whatever it mapped to
    before, and every other ordinal is as it was.  White space after the
    name, and anything behind it, is ignored. *)
Theorem read_ord_line_declaration (ds name tail : string) (ordMap : ImportOrdMap) :
  all_digits ds = true -> cxx.empty ds = false ->
  cxx.decimal 0 ds <= cxx.INT_MAX ->
  no_space name = true -> cxx.empty name = false ->
  match tail with EmptyString => true | String c _ => cxx.isspace c end = true ->
  let ordMap' := read_ord_line (ds +:+ " " +:+ name +:+ tail) ordMap in
  ordMap' !! cxx.decimal 0 ds = Some name
  /\ (forall k, k <> cxx.decimal 0 ds -> ordMap' !! k = ordMap !! k)
  /\ ordMap' = read_ord_line (ds +:+ " " +:+ name) ordMap.
Proof.
  intros Hd Hde Hmax Hn Hne Ht. cbv zeta.
  rewrite read_ord_line_digits_name by assumption.
  split; [apply lookup_insert_eq|]. split.
  - intros k Hk. now rewrite lookup_insert_ne.
  - pose proof (read_ord_line_digits_name ds name "" ordMap Hd Hde Hmax Hn Hne
                  eq_refl) as H.
    rewrite append_empty_r in H. now rewrite H.
Qed.

Lemma has_newline_app (a b : string) :
  has_newline (a +:+ b) = has_newline a || has_newline b.
Proof.
  induction a as [|c a IH]; [reflexivity|].
  change (String c a +:+ b) with (String c (a +:+ b)). simpl.
  now rewrite IH, orb_assoc.
Qed.

Lemma digits_no_newline (ds : string) :
  all_digits ds = true -> has_newline ds = false.
Proof.
  induction ds as [|c ds IH]; simpl; [reflexivity|].
  intros [Hc Hd]%andb_true_iff. rewrite IH by exact Hd.
  destruct (Ascii.eqb_spec c cxx.newline) as [->|]; [discriminate|reflexivity].
Qed.

Lemma no_space_no_newline (name : string) :
  no_space name = true -> has_newline name = false.
Proof.
  induction name as [|c name IH]; simpl; [reflexivity|].
  intros [Hc Hn]%andb_true_iff. rewrite IH by exact Hn.
  destruct (Ascii.eqb_spec c cxx.newline) as [->|]; [discriminate|reflexivity].
Qed.

Lemma read_ord_file_terminated (ls : list string) :
  Forall (fun l => has_newline l = false) ls ->
  read_ord_file (cxx.stream_of (terminated ls))
  = fold_left (fun m l => read_ord_line l m) ls ∅.
Proof.
  intros Hls. unfold read_ord_file.
  pose proof (read_ords_lines ls "" Hls eq_refl) as H.
  rewrite append_empty_r in H. apply H. simpl. lia.
Qed.

(** (X18) When the last line of an ordinal file is a well-formed declaration
    of an ordinal, the map read from the file gives that ordinal the name of
    that line, whatever the lines before say; a first request for the ordinal
    in that library then returns this name. *)
Theorem last_declaration_wins (ls : list string) (ds name L : string)
    (nc : NameContainer) (w : World) :
  Forall (fun l => has_newline l = false) ls ->
  all_digits ds = true -> cxx.empty ds = false ->
  cxx.decimal 0 ds <= cxx.INT_MAX ->
  no_space name = true -> cxx.empty name = false ->
  let text := terminated (ls ++ [ds +:+ " " +:+ name]) in
  read_ord_file (cxx.stream_of text) !! cxx.decimal 0 ds = Some name
  /\ (_dllOrds nc !! L = None -> files w !! ordPath nc L = Some text ->
      fst (fst (getNameFromImportLibAndOrd L (cxx.decimal 0 ds) nc w)) = name).
Proof.
  intros Hls Hd Hde Hmax Hn Hne. cbv zeta.
  assert (Hline : has_newline (ds +:+ " " +:+ name) = false).
  { rewrite !has_newline_app, (digits_no_newline ds Hd),
      (no_space_no_newline name Hn). reflexivity. }
  assert (Hread : read_ord_file
      (cxx.stream_of (terminated (ls ++ [ds +:+ " " +:+ name])))
      !! cxx.decimal 0 ds = Some name).
  { rewrite read_ord_file_terminated.
    - rewrite fold_left_app. simpl.
      pose proof (read_ord_line_digits_name ds name "" (fold_left
        (fun m l => read_ord_line l m) ls ∅) Hd Hde Hmax Hn Hne eq_refl) as H.
      rewrite append_empty_r in H. rewrite H. apply lookup_insert_eq.
    - apply List.Forall_app. split; [exact Hls|]. now constructor. }
  split; [exact Hread|].
  intros Hc Hf.
  rewrite (getNameFromImportLibAndOrd_present L _ _ nc w Hc Hf). simpl.
  now rewrite Hread.
Qed.

(** ** The ordinals a map can hold *)

Lemma extract_int_range (s : cxx.istream) (v : Z) :
  cxx.INT_MIN <= v <= cxx.INT_MAX ->
  cxx.INT_MIN <= snd (cxx.extract_int s v) <= cxx.INT_MAX.
Proof.
  intros Hv. unfold cxx.extract_int.
  destruct (cxx.sentry false s) as [s' [|]]; [|exact Hv].
  destruct (cxx.num_get_long (cxx.rdbuf s')) as [[lval err] rest].
  destruct (Z.ltb_spec lval cxx.INT_MIN); simpl.
  - unfold cxx.INT_MIN, cxx.INT_MAX. lia.
  - destruct (Z.ltb_spec cxx.INT_MAX lval); simpl; [|lia].
    unfold cxx.INT_MIN, cxx.INT_MAX. lia.
Qed.

Lemma read_ord_line_keys (line : string) (ordMap : ImportOrdMap) :
  keys_in_int ordMap -> keys_in_int (read_ord_line line ordMap).
Proof.
  intros Hk. unfold read_ord_line.
  pose proof (extract_int_range (cxx.stream_of line) (-1)) as Hr.
  destruct (cxx.extract_int (cxx.stream_of line) (-1)) as [s1 ord].
  destruct (cxx.extract_string s1 "") as [s2 funcName].
  simpl in Hr. destruct (Z.leb_spec 0 ord); [|exact Hk].
  intros k v. rewrite lookup_insert. case_decide; [|apply Hk].
  intros _. subst k. split; [assumption|].
  apply Hr. unfold cxx.INT_MIN, cxx.INT_MAX. lia.
Qed.

Lemma read_ords_keys (fuel : nat) (s : cxx.istream) (line : string)
    (ordMap : ImportOrdMap) :
  keys_in_int ordMap -> keys_in_int (read_ords fuel s line ordMap).
Proof.
  revert s line ordMap. induction fuel as [|fuel IH]; simpl; intros s line m Hm;
    [exact Hm|].
  destruct (cxx.getline s line) as [s' line'].
  destruct (cxx.eof s'); [exact Hm|]. apply IH. now apply read_ord_line_keys.
Qed.

Lemma read_ord_file_keys (s : cxx.istream) : keys_in_int (read_ord_file s).
Proof.
  unfold read_ord_file. apply read_ords_keys. intros k v.
  rewrite lookup_empty. discriminate.
Qed.

Lemma getNameFromImportLibAndOrd_cache_keys (L : string) (o : Z)
    (nc : NameContainer) (w : World) :
  cache_keys nc -> cache_keys (snd (fst (getNameFromImportLibAndOrd L o nc w))).
Proof.
  intros Hk. destruct (_dllOrds nc !! L) as [m|] eqn:Hc.
  - now rewrite (getNameFromImportLibAndOrd_hit L o m) by exact Hc.
  - destruct (files w !! ordPath nc L) as [content|] eqn:Hf.
    + rewrite (getNameFromImportLibAndOrd_present L content) by assumption.
      simpl. intros L' m'. simpl. rewrite lookup_insert. case_decide.
      * intros [= <-]. apply read_ord_file_keys.
      * apply Hk.
    + now rewrite getNameFromImportLibAndOrd_absent by assumption.
Qed.

Lemma getNameFromImportLibAndOrd_negative (L : string) (o : Z)
    (nc : NameContainer) (w : World) :
  cache_keys nc -> o < 0 ->
  fst (fst (getNameFromImportLibAndOrd L o nc w)) = "".
Proof.
  intros Hk Ho.
  assert (Hnone : forall m : ImportOrdMap, keys_in_int m -> m !! o = None).
  { intros m Hm. destruct (m !! o) as [v|] eqn:E; [|reflexivity].
    apply Hm in E. lia. }
  destruct (_dllOrds nc !! L) as [m|] eqn:Hc.
  - rewrite (getNameFromImportLibAndOrd_hit L o m) by exact Hc. simpl.
    now rewrite (Hnone m (Hk L m Hc)).
  - destruct (files w !! ordPath nc L) as [content|] eqn:Hf.
    + rewrite (getNameFromImportLibAndOrd_present L content) by assumption.
      simpl. now rewrite (Hnone _ (read_ord_file_keys _)).
    + now rewrite getNameFromImportLibAndOrd_absent by assumption.
Qed.

Lemma same_cache_refl (nc : NameContainer) : same_cache nc nc.
Proof. reflexivity. Qed.

Lemma same_cache_trans (x y z : NameContainer) :
  same_cache x y -> same_cache y z -> same_cache x z.
Proof. unfold same_cache. congruence. Qed.

Lemma cache_keys_same (nc nc' : NameContainer) :
  same_cache nc nc' -> cache_keys nc -> cache_keys nc'.
Proof. unfold same_cache, cache_keys. now intros ->. Qed.

Lemma append_inj_l (a b c : string) : a +:+ b = a +:+ c -> b = c.
Proof.
  induction a as [|x a IH]; intros H; [exact H|].
  change (String x (a +:+ b) = String x (a +:+ c)) in H.
  injection H as H. now apply IH.
Qed.

Lemma append_inj_r (a b c : string) : a +:+ c = b +:+ c -> a = b.
Proof.
  revert b. induction a as [|x a IH]; intros [|y b] H.
  - reflexivity.
  - apply (f_equal String.length) in H. rewrite !length_append in H.
    simpl in H. lia.
  - apply (f_equal String.length) in H. rewrite !length_append in H.
    simpl in H. lia.
  - change (String x (a +:+ c) = String y (b +:+ c)) in H.
    injection H as -> H. f_equal. now apply IH.
Qed.

Lemma ord_path_inj (dir L L' : string) :
  dir +:+ "/" +:+ L +:+ ".ord" = dir +:+ "/" +:+ L' +:+ ".ord" -> L = L'.
Proof.
  intros H. apply append_inj_l in H. apply append_inj_l in H.
  now apply append_inj_r in H.
Qed.

Lemma loads_once_start (nc : NameContainer) (w : World) :
  loads_once (getOrdinalNumbersDirectory (_config nc)) w nc w.
Proof.
  split; [reflexivity|]. split; [reflexivity|]. intros L path _. split; lia.
Qed.

Lemma loads_once_extends (dir : string) (w0 w : World) (nc nc' : NameContainer) :
  extends nc nc' -> loads_once dir w0 nc w -> loads_once dir w0 nc' w.
Proof.
  intros (_ & (_ & Hc & _) & Hle) (Hdir & Hf & Hcount).
  split; [now rewrite Hc|]. split; [exact Hf|].
  intros L path Hp. destruct (Hcount L Hp) as [H1 H2]. split; [exact H1|].
  intros Hlt. destruct (H2 Hlt) as [m' Hm']. exists m'. now apply Hle.
Qed.

Lemma loads_once_getName (dir : string) (w0 w : World) (nc : NameContainer)
    (L : string) (o : Z) :
  loads_once dir w0 nc w ->
  loads_once dir w0 (snd (fst (getNameFromImportLibAndOrd L o nc w)))
    (snd (getNameFromImportLibAndOrd L o nc w)).
Proof.
  intros (Hdir & Hf & Hcount).
  destruct (_dllOrds nc !! L) as [m|] eqn:Hc.
  { rewrite (getNameFromImportLibAndOrd_hit L o m) by exact Hc.
    simpl. split; [exact Hdir|split; [exact Hf|exact Hcount]]. }
  assert (Hpath : ordPath nc L = dir +:+ "/" +:+ L +:+ ".ord")
    by (unfold ordPath; now rewrite Hdir).
  destruct (files w !! ordPath nc L) as [content|] eqn:Hfile.
  - rewrite (getNameFromImportLibAndOrd_present L content) by assumption.
    simpl. split; [exact Hdir|]. split; [exact Hf|].
    intros L0 path Hp. simpl. rewrite count_occ_app. simpl.
    destruct (Hcount L0 Hp) as [H1 H2]. fold path in H1, H2.
    destruct (string_dec (ordPath nc L) path) as [E|NE].
    + assert (L0 = L).
      { rewrite Hpath in E. unfold path in E. symmetry. now apply ord_path_inj in E. }
      subst L0. split; [|intros _; rewrite lookup_insert_eq; eauto].
      destruct (Nat.lt_ge_cases (count_occ string_dec (opened w0) path)
                  (count_occ string_dec (opened w) path)) as [Hlt|Hge]; [|lia].
      destruct (H2 Hlt) as [m' Hm']. congruence.
    + split; [lia|]. intros Hlt. rewrite Nat.add_0_r in Hlt.
      destruct (H2 Hlt) as [m' Hm']. exists m'.
      rewrite lookup_insert_ne; [exact Hm'|]. intros <-.
      apply NE. now rewrite Hpath.
  - rewrite getNameFromImportLibAndOrd_absent by assumption.
    simpl. split; [exact Hdir|]. split; [exact Hf|].
    intros L0 path Hp. simpl. rewrite count_occ_app. simpl.
    destruct (Hcount L0 Hp) as [H1 H2]. fold path in H1, H2.
    destruct (string_dec (ordPath nc L) path) as [E|NE].
    + exfalso. rewrite <- E, <- Hf, Hfile in Hp. destruct Hp as [x Hx]. discriminate.
    + rewrite Nat.add_0_r. split; [exact H1|exact H2].
Qed.

Section Ordinals.

Variable norm : string -> string.
Variable prefix : string.

Lemma addNameForAddress_same_cache (a : N) (t : string) (p : eType)
    (nc : NameContainer) :
  same_cache nc (snd (addNameForAddress norm a t p nc)).
Proof. apply addNameForAddress_env. Qed.

Lemma addAll_same_cache (type : eType) (l : list (N * string))
    (nc : NameContainer) :
  same_cache nc (addAll norm type l nc).
Proof.
  unfold addAll. apply fold_left_preorder;
    [apply same_cache_refl|apply same_cache_trans|].
  intros s x. apply addNameForAddress_same_cache.
Qed.

Lemma initFromImport_cache_keys (impTbl : ImportTable) (imp : Import)
    (st : NameContainer * World) :
  cache_keys (fst st) ->
  cache_keys (fst (initFromImport norm prefix impTbl imp st)).
Proof.
  destruct st as [nc w]. simpl. intros H. unfold initFromImport.
  destruct (cxx.empty (imp_getName imp)).
  - destruct (getOrdinalNumber imp) as [ord|].
    + pose proof (getNameFromImportLibAndOrd_cache_keys
        (removeSuffix (cxx.transform_tolower
           (getLibrary impTbl (getLibraryIndex imp))) ".dll")
        (cxx.to_int (Z.of_N ord)) nc w H) as Hk.
      destruct (getNameFromImportLibAndOrd _ _ nc w) as [[name nc'] w'].
      simpl in Hk.
      destruct (cxx.empty name && true); simpl;
        (eapply cache_keys_same; [apply addNameForAddress_same_cache|exact Hk]).
    + destruct (cxx.empty (imp_getName imp) && false); simpl;
        (eapply cache_keys_same; [apply addNameForAddress_same_cache|exact H]).
  - destruct (cxx.empty (imp_getName imp) && false); simpl;
      (eapply cache_keys_same; [apply addNameForAddress_same_cache|exact H]).
Qed.

Lemma initFromImport_loads_once (dir : string) (w0 : World)
    (impTbl : ImportTable) (imp : Import) (st : NameContainer * World) :
  loads_once dir w0 (fst st) (snd st) ->
  loads_once dir w0 (fst (initFromImport norm prefix impTbl imp st))
    (snd (initFromImport norm prefix impTbl imp st)).
Proof.
  destruct st as [nc w]. simpl. intros H. unfold initFromImport.
  destruct (cxx.empty (imp_getName imp)).
  - destruct (getOrdinalNumber imp) as [ord|].
    + pose proof (loads_once_getName dir w0 w nc
        (removeSuffix (cxx.transform_tolower
           (getLibrary impTbl (getLibraryIndex imp))) ".dll")
        (cxx.to_int (Z.of_N ord)) H) as Hk.
      destruct (getNameFromImportLibAndOrd _ _ nc w) as [[name nc'] w'].
      simpl in Hk.
      destruct (cxx.empty name && true); simpl;
        (eapply loads_once_extends; [apply addNameForAddress_extends|exact Hk]).
    + destruct (cxx.empty (imp_getName imp) && false); simpl;
        (eapply loads_once_extends; [apply addNameForAddress_extends|exact H]).
  - destruct (cxx.empty (imp_getName imp) && false); simpl;
      (eapply loads_once_extends; [apply addNameForAddress_extends|exact H]).
Qed.

Lemma initFromConfig_same_cache (nc : NameContainer) :
  same_cache nc (initFromConfig norm nc).
Proof.
  unfold initFromConfig.
  eapply same_cache_trans; [apply addNameForAddress_same_cache|].
  eapply same_cache_trans; [apply addAll_same_cache|].
  eapply same_cache_trans; [apply addAll_same_cache|apply addAll_same_cache].
Qed.

Lemma initFromDebug_same_cache (nc : NameContainer) :
  same_cache nc (initFromDebug norm nc).
Proof.
  unfold initFromDebug. destruct (_debug nc) as [dbg|]; [|apply same_cache_refl].
  eapply same_cache_trans; [apply addAll_same_cache|].
  apply fold_left_preorder; [apply same_cache_refl|apply same_cache_trans|].
  intros s [[addr|] name]; simpl;
    [apply addNameForAddress_same_cache|apply same_cache_refl].
Qed.

Lemma afterExports_same_cache (i : FileImage) (nc : NameContainer) :
  same_cache nc (afterExports norm i nc).
Proof.
  unfold afterExports. destruct (getExportTable i);
    [apply addAll_same_cache|apply same_cache_refl].
Qed.

Lemma afterSymbols_same_cache (i : FileImage) (nc : NameContainer) :
  same_cache nc (afterSymbols norm i nc).
Proof.
  unfold afterSymbols.
  apply fold_left_preorder; [apply same_cache_refl|apply same_cache_trans|].
  intros s x. destruct (getRealAddress x);
    [apply addNameForAddress_same_cache|apply same_cache_refl].
Qed.

Lemma afterEntryPoint_same_cache (i : FileImage) (nc : NameContainer) :
  same_cache nc (afterEntryPoint norm i nc).
Proof.
  unfold afterEntryPoint. destruct (getEpAddress i);
    [apply addNameForAddress_same_cache|apply same_cache_refl].
Qed.

Lemma NameContainer_new_cache_keys (m : N) (c : Config)
    (d : option DebugFormat) (i : FileImage) (dm : N) (w : World) :
  cache_keys (fst (NameContainer_new norm prefix m c d i dm w)).
Proof.
  unfold NameContainer_new. rewrite initFromImage_stages. simpl.
  set (nc0 := {| _module := m; _config := c; _debug := d; _image := i;
                 _demangler := dm; _data := ∅; _dllOrds := ∅ |}).
  set (nc2 := initFromDebug norm (initFromConfig norm nc0)).
  assert (H2 : cache_keys nc2).
  { eapply cache_keys_same; [apply initFromDebug_same_cache|].
    eapply cache_keys_same; [apply initFromConfig_same_cache|].
    intros L m'. simpl. rewrite lookup_empty. discriminate. }
  assert (H3 : cache_keys (fst (afterImports norm prefix nc2 w))).
  { unfold afterImports. destruct (getImportTable (_image nc2)); [|exact H2].
    apply (fold_left_invariant (fun st => cache_keys (fst st))); [|exact H2].
    intros s x. apply initFromImport_cache_keys. }
  eapply cache_keys_same; [apply addAll_same_cache|].
  eapply cache_keys_same; [apply afterEntryPoint_same_cache|].
  eapply cache_keys_same; [apply afterSymbols_same_cache|].
  eapply cache_keys_same; [apply afterExports_same_cache|exact H3].
Qed.

(** (X19) The map read from an ordinal file holds only ordinals from 0 to
    [INT_MAX], and so does every map cached in a constructed registry; hence
    a request for a negative ordinal (any negative value of the [int]
    parameter) returns the empty string whatever the files hold. *)
Theorem negative_ordinal_unresolved (m : N) (c : Config)
    (d : option DebugFormat) (i : FileImage) (dm : N) (w w' : World)
    (L : string) (o : Z) :
  cxx.INT_MIN <= o < 0 ->
  let nc := fst (NameContainer_new norm prefix m c d i dm w) in
  fst (fst (getNameFromImportLibAndOrd L o nc w')) = ""
  /\ (forall s k v, read_ord_file s !! k = Some v -> 0 <= k <= cxx.INT_MAX)
  /\ (forall L' m' k v, _dllOrds nc !! L' = Some m' -> m' !! k = Some v ->
        0 <= k <= cxx.INT_MAX).
Proof.
  intros Ho. cbv zeta.
  pose proof (NameContainer_new_cache_keys m c d i dm w) as Hk.
  split; [apply getNameFromImportLibAndOrd_negative; [exact Hk|lia]|].
  split.
  - intros s. apply read_ord_file_keys.
  - intros L' m' k v Hm'. exact (Hk L' m' Hm' k v).
Qed.

(** (X20) While a registry is constructed, an ordinal file that exists is
    opened at most once, however many imports refer to its library; the
    files themselves are not changed. *)
Theorem ordinal_file_loaded_once (m : N) (c : Config) (d : option DebugFormat)
    (i : FileImage) (dm : N) (w : World) (L : string) :
  let path := getOrdinalNumbersDirectory c +:+ "/" +:+ L +:+ ".ord" in
  let w' := snd (NameContainer_new norm prefix m c d i dm w) in
  is_Some (files w !! path) ->
  (count_occ string_dec (opened w') path
   <= count_occ string_dec (opened w) path + 1)%nat
  /\ files w' = files w.
Proof.
  cbv zeta. intros Hp. unfold NameContainer_new.
  set (nc0 := {| _module := m; _config := c; _debug := d; _image := i;
                 _demangler := dm; _data := ∅; _dllOrds := ∅ |}).
  set (nc2 := initFromDebug norm (initFromConfig norm nc0)).
  assert (H2 : loads_once (getOrdinalNumbersDirectory c) w nc2 w).
  { eapply loads_once_extends; [apply initFromDebug_extends|].
    eapply loads_once_extends; [apply initFromConfig_extends|].
    apply (loads_once_start nc0 w). }
  rewrite initFromImage_stages. simpl.
  assert (H3 : loads_once (getOrdinalNumbersDirectory c) w
                 (fst (afterImports norm prefix nc2 w))
                 (snd (afterImports norm prefix nc2 w))).
  { unfold afterImports. destruct (getImportTable (_image nc2)); [|exact H2].
    apply (fold_left_invariant
             (fun st => loads_once (getOrdinalNumbersDirectory c) w (fst st) (snd st)));
      [|exact H2].
    intros s x. apply initFromImport_loads_once. }
  destruct H3 as (_ & Hf & Hcount). split; [|exact Hf].
  apply (Hcount L Hp).
Qed.

(** (X21) A cached ordinal map is never replaced or dropped by a later
    request, for its own or another library, and requests for a cached
    library are answered from the cache alone: their results do not depend on
    the files, and they open none. *)
Theorem cached_library_stable (L L' : string) (m : ImportOrdMap) (o o' : Z)
    (nc : NameContainer) (w w'' : World) :
  _dllOrds nc !! L' = Some m ->
  let nc' := snd (fst (getNameFromImportLibAndOrd L o nc w)) in
  _dllOrds nc' !! L' = Some m
  /\ getNameFromImportLibAndOrd L' o' nc' w'' = (default "" (m !! o'), nc', w'').
Proof.
  intros Hm. cbv zeta.
  assert (H : _dllOrds (snd (fst (getNameFromImportLibAndOrd L o nc w))) !! L'
              = Some m).
  { destruct (getNameFromImportLibAndOrd_extends L o nc w) as [(_ & _ & Hle) _].
    now apply Hle. }
  split; [exact H|]. now apply getNameFromImportLibAndOrd_hit.
Qed.

(** (X22) An import known by ordinal only, whose library has no ordinal
    file, is stored under the generated name made of the prefix and the
    decimal ordinal.  That name is never empty, and two ordinals give the same
    generated name only if they are equal. *)
Theorem generated_import_name (impTbl : ImportTable) (addr : N) (idx : nat)
    (ord ord' : N) (nc : NameContainer) (w : World) :
  let imp := {| imp_getAddress := addr; imp_getName := "";
                getLibraryIndex := idx; getOrdinalNumber := Some ord |} in
  let libN := removeSuffix (cxx.transform_tolower (getLibrary impTbl idx)) ".dll" in
  (Address.isUndefined addr = false ->
   _dllOrds nc !! libN = None -> files w !! ordPath nc libN = None ->
   In (Name_new norm (prefix +:+ cxx.to_string ord) IMPORT_GENERATED)
      (_names (data_at addr (fst (initFromImport norm prefix impTbl imp (nc, w))))))
  /\ cxx.empty (prefix +:+ cxx.to_string ord) = false
  /\ (prefix +:+ cxx.to_string ord = prefix +:+ cxx.to_string ord' -> ord = ord').
Proof.
  cbv zeta. split; [|split].
  - intros Ha Hc Hf.
    rewrite (initFromImport_by_ordinal norm prefix _ _ ord) by reflexivity.
    simpl. rewrite getNameFromImportLibAndOrd_absent by assumption. simpl.
    apply addNameForAddress_has; [exact Ha|].
    apply empty_append_r, to_string_nonempty.
  - apply empty_append_r, to_string_nonempty.
  - intros H. apply append_inj_l in H. now apply pretty_N_inj in H.
Qed.

End Ordinals.

(** ** The name of an import known by ordinal only *)

Lemma fold_left_reaches_inv {S X : Type} (Inv P : S -> Prop) (f : S -> X -> S)
    (x : X) (l : list X) (s : S) :
  Inv s -> (forall s y, Inv s -> Inv (f s y)) ->
  In x l -> (forall s, Inv s -> P (f s x)) -> (forall s y, P s -> P (f s y)) ->
  P (fold_left f l s).
Proof.
  intros Hs Hinv Hin Hx Hkeep. revert s Hs.
  induction l as [|y l IH]; simpl; intros s Hs; [destruct Hin|].
  destruct Hin as [->|Hin].
  - apply fold_left_invariant; [exact Hkeep|now apply Hx].
  - apply IH; [exact Hin|now apply Hinv].
Qed.

Lemma cache_sound_same (dir : string) (w0 w : World) (nc nc' : NameContainer) :
  same_env nc nc' -> same_cache nc nc' ->
  cache_sound dir w0 nc w -> cache_sound dir w0 nc' w.
Proof.
  intros (_ & Hc & _) Hs (Hdir & Hf & Hm).
  split; [now rewrite Hc|]. split; [exact Hf|].
  intros L m. unfold same_cache in Hs. rewrite Hs. apply Hm.
Qed.

(** With a sound cache a request returns what the library's file says,
    whether it is answered from the cache or by a load, and leaves the cache
    sound. *)
Lemma cache_sound_getName (dir : string) (w0 w : World) (nc : NameContainer)
    (L : string) (o : Z) :
  cache_sound dir w0 nc w ->
  fst (fst (getNameFromImportLibAndOrd L o nc w)) = ordinal_name dir w0 L o
  /\ cache_sound dir w0 (snd (fst (getNameFromImportLibAndOrd L o nc w)))
       (snd (getNameFromImportLibAndOrd L o nc w)).
Proof.
  intros (Hdir & Hf & Hm). unfold ordinal_name.
  destruct (_dllOrds nc !! L) as [m|] eqn:Hc.
  { rewrite (getNameFromImportLibAndOrd_hit L o m) by exact Hc. simpl.
    destruct (Hm L m Hc) as (content & Hcont & ->). rewrite Hcont.
    split; [reflexivity|]. split; [exact Hdir|split; [exact Hf|exact Hm]]. }
  assert (Hpath : ordPath nc L = dir +:+ "/" +:+ L +:+ ".ord")
    by (unfold ordPath; now rewrite Hdir).
  destruct (files w !! ordPath nc L) as [content|] eqn:Hfile.
  - rewrite (getNameFromImportLibAndOrd_present L content) by assumption.
    simpl. rewrite Hpath, Hf in Hfile. rewrite Hfile.
    split; [reflexivity|]. split; [exact Hdir|]. split; [exact Hf|].
    intros L' m'. simpl. rewrite lookup_insert. case_decide.
    + intros [= <-]. subst L'. exists content. now split.
    + apply Hm.
  - rewrite getNameFromImportLibAndOrd_absent by assumption.
    simpl. rewrite Hpath, Hf in Hfile. rewrite Hfile.
    split; [reflexivity|]. split; [exact Hdir|split; [exact Hf|exact Hm]].
Qed.

Section OrdinalImports.

Variable norm : string -> string.
Variable prefix : string.

Lemma addNameForAddress_cache_sound (dir : string) (w0 w : World) (a : N)
    (t : string) (p : eType) (nc : NameContainer) :
  cache_sound dir w0 nc w ->
  cache_sound dir w0 (snd (addNameForAddress norm a t p nc)) w.
Proof.
  apply cache_sound_same; apply addNameForAddress_env.
Qed.

Lemma initFromImport_cache_sound (dir : string) (w0 : World)
    (impTbl : ImportTable) (imp : Import) (st : NameContainer * World) :
  cache_sound dir w0 (fst st) (snd st) ->
  cache_sound dir w0 (fst (initFromImport norm prefix impTbl imp st))
    (snd (initFromImport norm prefix impTbl imp st)).
Proof.
  destruct st as [nc w]. simpl. intros H. unfold initFromImport.
  destruct (cxx.empty (imp_getName imp)).
  - destruct (getOrdinalNumber imp) as [ord|].
    + pose proof (proj2 (cache_sound_getName dir w0 w nc
        (removeSuffix (cxx.transform_tolower
           (getLibrary impTbl (getLibraryIndex imp))) ".dll")
        (cxx.to_int (Z.of_N ord)) H)) as Hk.
      destruct (getNameFromImportLibAndOrd _ _ nc w) as [[name nc'] w'].
      simpl in Hk.
      destruct (cxx.empty name && true); simpl;
        now apply addNameForAddress_cache_sound.
    + destruct (cxx.empty (imp_getName imp) && false); simpl;
        now apply addNameForAddress_cache_sound.
  - destruct (cxx.empty (imp_getName imp) && false); simpl;
      now apply addNameForAddress_cache_sound.
Qed.

(** (X14) An import without a name but with an ordinal and a defined address
    is in the constructed registry under the name its ordinal, converted to
    [int], has in the ordinal file of its library (the library name in lower
    case without a trailing ".dll"), with the type [IMPORT]; when there is no
    such file, or the file gives that ordinal no name or an empty one, it is
    there under the generated name made of the prefix and the decimal
    ordinal, with the type [IMPORT_GENERATED]. *)
Theorem NameContainer_new_names_ordinal_import (m : N) (c : Config)
    (d : option DebugFormat) (i : FileImage) (dm : N) (w : World)
    (tbl : ImportTable) (imp : Import) (ord : N) :
  getImportTable i = Some tbl -> In imp (imports tbl) ->
  cxx.empty (imp_getName imp) = true -> getOrdinalNumber imp = Some ord ->
  Address.isUndefined (imp_getAddress imp) = false ->
  let nc := fst (NameContainer_new norm prefix m c d i dm w) in
  let libN :=
    removeSuffix (cxx.transform_tolower (getLibrary tbl (getLibraryIndex imp)))
      ".dll" in
  let resolved :=
    ordinal_name (getOrdinalNumbersDirectory c) w libN (cxx.to_int (Z.of_N ord)) in
  In (if cxx.empty resolved
      then Name_new norm (prefix +:+ cxx.to_string ord) IMPORT_GENERATED
      else Name_new norm resolved IMPORT)
     (_names (data_at (imp_getAddress imp) nc)).
Proof.
  intros Htbl Himp Hname Hord Ha. cbv zeta. unfold NameContainer_new.
  set (nc0 := {| _module := m; _config := c; _debug := d; _image := i;
                 _demangler := dm; _data := ∅; _dllOrds := ∅ |}).
  set (nc2 := initFromDebug norm (initFromConfig norm nc0)).
  set (libN := removeSuffix (cxx.transform_tolower
                 (getLibrary tbl (getLibraryIndex imp))) ".dll").
  set (expected :=
         if cxx.empty (ordinal_name (getOrdinalNumbersDirectory c) w libN
                         (cxx.to_int (Z.of_N ord)))
         then Name_new norm (prefix +:+ cxx.to_string ord) IMPORT_GENERATED
         else Name_new norm (ordinal_name (getOrdinalNumbersDirectory c) w libN
                               (cxx.to_int (Z.of_N ord))) IMPORT).
  assert (He : extends nc0 nc2).
  { eapply extends_trans; [apply initFromConfig_extends|apply initFromDebug_extends]. }
  assert (Hi : _image nc2 = i) by now destruct He as (_ & (_ & _ & _ & -> & _) & _).
  assert (Hs : cache_sound (getOrdinalNumbersDirectory c) w nc2 w).
  { apply (cache_sound_same _ _ _ nc0); [apply He| |].
    - eapply same_cache_trans;
        [apply initFromConfig_same_cache|apply initFromDebug_same_cache].
    - split; [reflexivity|]. split; [reflexivity|].
      intros L m'. simpl. rewrite lookup_empty. discriminate. }
  rewrite initFromImage_stages. simpl. rewrite Hi.
  eapply extends_has; [apply addAll_extends|].
  eapply extends_has; [apply afterEntryPoint_extends|].
  eapply extends_has; [apply afterSymbols_extends|].
  eapply extends_has; [apply afterExports_extends|].
  unfold afterImports. rewrite Hi, Htbl.
  apply (fold_left_reaches_inv
           (fun st => cache_sound (getOrdinalNumbersDirectory c) w (fst st) (snd st))
           (fun st => In expected (_names (data_at (imp_getAddress imp) (fst st))))
           _ imp); [exact Hs| |exact Himp| |].
  - intros s y. apply initFromImport_cache_sound.
  - intros [s w'] Hsound. simpl in Hsound.
    rewrite (initFromImport_by_ordinal norm prefix tbl imp ord) by assumption.
    destruct (cache_sound_getName _ _ _ _ libN (cxx.to_int (Z.of_N ord)) Hsound)
      as [Hres _].
    fold libN. destruct (getNameFromImportLibAndOrd libN _ s w') as [[name s1] w1].
    simpl in Hres. subst name. unfold expected.
    destruct (cxx.empty (ordinal_name _ w libN _)) eqn:En; simpl.
    + apply addNameForAddress_has; [exact Ha|].
      apply empty_append_r, to_string_nonempty.
    + now apply addNameForAddress_has.
  - intros s y Hs'.
    now apply (proj1 (proj1 (initFromImport_extends norm prefix tbl y s))).
Qed.

End OrdinalImports.

(** ** Concrete instances of the further properties *)

Lemma Names_addName_size_witness :
  Names_size (snd (Names_addName verbatimPrefix "dbg_main" DEBUG_FUNCTION
                     sample_names)) = 2%nat
  /\ Names_size (snd (Names_addName verbatimPrefix "exp_main" EXPORT
                        sample_names)) = 3%nat.
Proof.
  assert (Hok : Names_ok sample_names) by (repeat constructor).
  destruct (Names_addName_size verbatimPrefix "dbg_main" DEBUG_FUNCTION
              sample_names Hok eq_refl) as [Hsame _].
  destruct (Names_addName_size verbatimPrefix "exp_main" EXPORT
              sample_names Hok eq_refl) as [_ Hnew].
  split.
  - apply Hsame. left. reflexivity.
  - apply Hnew. intros [H|[H|[]]]; discriminate H.
Defined.

Lemma NameContainer_new_has_declared_witness :
  let nc :=
    fst (NameContainer_new verbatimPrefix "imp_" 1%N sample_config
           (Some sample_debug) sample_image 1%N sample_world) in
  In {| _name := "init"; _type := CONFIG_FUNCTION |} (_names (data_at 4096%N nc))
  /\ In {| _name := "dbg_init"; _type := DEBUG_FUNCTION |}
        (_names (data_at 4096%N nc)).
Proof.
  destruct (NameContainer_new_has_declared verbatimPrefix "imp_" 1%N
              sample_config (Some sample_debug) sample_image 1%N sample_world
              4096%N "init" eq_refl eq_refl) as (_ & Hfun & _).
  destruct (NameContainer_new_has_declared verbatimPrefix "imp_" 1%N
              sample_config (Some sample_debug) sample_image 1%N sample_world
              4096%N "dbg_init" eq_refl eq_refl) as (_ & _ & _ & _ & Hdbg).
  split.
  - apply Hfun. left. reflexivity.
  - apply (Hdbg sample_debug eq_refl). left. reflexivity.
Defined.

Lemma NameContainer_new_has_image_witness :
  let nc :=
    fst (NameContainer_new verbatimPrefix "imp_" 1%N sample_config None
           full_image 1%N sample_world) in
  In {| _name := "exported"; _type := EXPORT |} (_names (data_at 12288%N nc))
  /\ In {| _name := ".text"; _type := ENTRY_POINT |} (_names (data_at 16384%N nc))
  /\ In {| _name := "printf"; _type := IMPORT |} (_names (data_at 8192%N nc)).
Proof.
  destruct (NameContainer_new_has_image verbatimPrefix "imp_" 1%N
              sample_config None full_image 1%N sample_world
              12288%N "exported" eq_refl eq_refl) as (_ & Hex & _).
  destruct (NameContainer_new_has_image verbatimPrefix "imp_" 1%N
              sample_config None full_image 1%N sample_world
              16384%N ".text" eq_refl eq_refl) as (_ & _ & _ & _ & Hseg).
  destruct (NameContainer_new_has_image verbatimPrefix "imp_" 1%N
              sample_config None full_image 1%N sample_world
              8192%N "printf" eq_refl eq_refl) as (Himp & _).
  split; [|split].
  - apply (Hex _ eq_refl). left. reflexivity.
  - apply Hseg. left. reflexivity.
  - apply (Himp sample_imports imp_printf eq_refl); [left|..]; reflexivity.
Defined.

Lemma NameContainer_new_names_ordinal_import_witness :
  let nc :=
    fst (NameContainer_new verbatimPrefix "imp_" 1%N sample_config None
           full_image 1%N sample_world) in
  In {| _name := "CreateWidget"; _type := IMPORT |} (_names (data_at 8200%N nc))
  /\ In {| _name := "imp_9"; _type := IMPORT_GENERATED |}
        (_names (data_at 8208%N nc)).
Proof.
  pose proof (NameContainer_new_names_ordinal_import verbatimPrefix "imp_" 1%N
                sample_config None full_image 1%N sample_world sample_imports
                imp_ord7 7%N eq_refl (or_intror (or_introl eq_refl))
                eq_refl eq_refl eq_refl) as H7.
  pose proof (NameContainer_new_names_ordinal_import verbatimPrefix "imp_" 1%N
                sample_config None full_image 1%N sample_world sample_imports
                imp_ord9 9%N eq_refl
                (or_intror (or_intror (or_introl eq_refl)))
                eq_refl eq_refl eq_refl) as H9.
  vm_compute in H7, H9 |- *. split; [exact H7|exact H9].
Defined.

Lemma read_ord_line_declaration_witness :
  read_ord_line "7 CreateWidget" {[ 7 := "Old" ]} !! 7 = Some "CreateWidget".
Proof.
  apply (read_ord_line_declaration "7" "CreateWidget" "" {[ 7 := "Old" ]});
    [reflexivity|reflexivity|vm_compute; discriminate|reflexivity..].
Defined.

Lemma last_declaration_wins_witness :
  read_ord_file (cxx.stream_of (terminated ["7 Old"; "8 Other"; "7 New"])) !! 7
  = Some "New".
Proof.
  apply (last_declaration_wins ["7 Old"; "8 Other"] "7" "New" "foo"
           sample_registry sample_world);
    [repeat constructor|reflexivity|reflexivity|vm_compute; discriminate
    |reflexivity|reflexivity].
Defined.

Lemma negative_ordinal_unresolved_witness :
  fst (fst (getNameFromImportLibAndOrd "foo" (-1)
              (fst (NameContainer_new verbatimPrefix "imp_" 1%N sample_config
                      None full_image 1%N sample_world)) sample_world)) = "".
Proof.
  apply (negative_ordinal_unresolved verbatimPrefix "imp_" 1%N sample_config
           None full_image 1%N sample_world sample_world "foo" (-1)).
  unfold cxx.INT_MIN. lia.
Defined.

Lemma ordinal_file_loaded_once_witness :
  let w' :=
    snd (NameContainer_new verbatimPrefix "imp_" 1%N sample_config None
           full_image 1%N sample_world) in
  (count_occ string_dec (opened w') "ords/foo.ord" <= 1)%nat
  /\ opened w' = ["ords/foo.ord"].
Proof.
  split; [|vm_compute; reflexivity].
  apply (ordinal_file_loaded_once verbatimPrefix "imp_" 1%N sample_config None
           full_image 1%N sample_world "foo").
  exists (terminated ["7 CreateWidget"]). vm_compute. reflexivity.
Defined.

Lemma cached_library_stable_witness :
  let nc1 :=
    snd (fst (getNameFromImportLibAndOrd "foo" 7 sample_registry sample_world)) in
  let nc2 :=
    snd (fst (getNameFromImportLibAndOrd "missing-lib" 1 nc1 sample_world)) in
  _dllOrds nc2 !! "foo" = Some {[ 7 := "CreateWidget" ]}
  /\ fst (fst (getNameFromImportLibAndOrd "foo" 7 nc2
                 {| files := ∅; opened := [] |})) = "CreateWidget".
Proof.
  destruct (cached_library_stable "missing-lib" "foo" {[ 7 := "CreateWidget" ]}
              1 7
              (snd (fst (getNameFromImportLibAndOrd "foo" 7 sample_registry
                           sample_world)))
              sample_world {| files := ∅; opened := [] |} eq_refl) as [H1 H2].
  split; [exact H1|]. cbv zeta. now rewrite H2.
Defined.
